(** * ClangCompleter/CompletionData: building a completion record from
      libclang completion chunks

    A shallow embedding of [CompletionData.cpp] and [CompletionData.h]
    (YouCompleteMe's ycmd, namespace [YouCompleteMe]).

    - [std::string] is a byte string: Rocq's [string], whose characters are
      8-bit [ascii] values.  A literal such as ["⟪"] is the three bytes of
      its UTF-8 encoding, exactly as in the C++ source file.
    - The object under construction is an eight-field record; the members
      keep their C++ names.
    - [ExtractDataFromChunk] mutates the object and two [bool&] arguments;
      here it maps a [scan_state] to a [scan_state].
    - The static member [extra_space_] lives in a one-field record of
      process-wide state that the two static setters replace. *)

From Stdlib Require Import String Ascii List Bool Arith Lia.
Import ListNotations.

Local Open Scope string_scope.

(** ** libclang's side of the interface *)

(** Modelled from the spec: libclang's [CXCompletionChunkKind]
    ([clang-c/Index.h] is not among the sources).  The spec lists the kinds;
    what it calls "Other" is libclang's [CXCompletionChunk_Text].
    [CXCompletionChunk_Invalid] stands for a tag value that is none of the
    enumerators. *)
Inductive CXCompletionChunkKind : Set :=
| CXCompletionChunk_Optional
| CXCompletionChunk_TypedText
| CXCompletionChunk_Text
| CXCompletionChunk_Placeholder
| CXCompletionChunk_Informative
| CXCompletionChunk_CurrentParameter
| CXCompletionChunk_LeftParen
| CXCompletionChunk_RightParen
| CXCompletionChunk_LeftBracket
| CXCompletionChunk_RightBracket
| CXCompletionChunk_LeftBrace
| CXCompletionChunk_RightBrace
| CXCompletionChunk_LeftAngle
| CXCompletionChunk_RightAngle
| CXCompletionChunk_Comma
| CXCompletionChunk_ResultType
| CXCompletionChunk_Colon
| CXCompletionChunk_SemiColon
| CXCompletionChunk_Equal
| CXCompletionChunk_HorizontalSpace
| CXCompletionChunk_VerticalSpace
| CXCompletionChunk_Invalid.

Definition chunk_kind_eq_dec (a b : CXCompletionChunkKind) : {a = b} + {a <> b}.
Proof. decide equality. Defined.

(** Modelled from the spec: libclang's [CXCursorKind], reduced to the tags
    that [CursorKindToCompletionKind] names; [CXCursor_Unlisted] is every
    other tag. *)
Inductive CXCursorKind : Set :=
| CXCursor_StructDecl
| CXCursor_ClassDecl
| CXCursor_ClassTemplate
| CXCursor_EnumDecl
| CXCursor_UnexposedDecl
| CXCursor_UnionDecl
| CXCursor_TypedefDecl
| CXCursor_FieldDecl
| CXCursor_FunctionDecl
| CXCursor_CXXMethod
| CXCursor_FunctionTemplate
| CXCursor_ConversionFunction
| CXCursor_Constructor
| CXCursor_Destructor
| CXCursor_VarDecl
| CXCursor_MacroDefinition
| CXCursor_ParmDecl
| CXCursor_Namespace
| CXCursor_NamespaceAlias
| CXCursor_Unlisted.

(** Modelled from the spec: one chunk of a libclang completion string, as the
    three accessors show it.  [clang_getCompletionChunkKind] is [Kind],
    [CXStringToString (clang_getCompletionChunkText ...)] is [Text] (the
    empty string when libclang has no text), and
    [clang_getCompletionChunkCompletionString] is [Nested]: [None] is the
    null pointer. *)
#[warnings="-register-all"]
Inductive Chunk : Type :=
  mkChunk { Kind : CXCompletionChunkKind;
            Text : string;
            Nested : option (list Chunk) }.

(** Modelled from the spec: what a non-null [CXCompletionString] gives the
    constructor: its chunks ([clang_getNumCompletionChunks] is their number)
    and [CXStringToString (clang_getCompletionBriefComment ...)]. *)
Record CXCompletionStringData : Type :=
  { Chunks : list Chunk;
    BriefComment : string }.

(** [CXCompletionResult]; [CompletionString = None] is the null pointer. *)
Record CXCompletionResult : Type :=
  { CursorKind : CXCursorKind;
    CompletionString : option CXCompletionStringData }.

(** ** CompletionData.h *)

Inductive CompletionKind : Set :=
| STRUCT | CLASS | ENUM | TYPE | MEMBER | FUNCTION | VARIABLE | MACRO
| PARAMETER | NAMESPACE | UNKNOWN.

Definition CompletionKind_eq_dec (a b : CompletionKind) : {a = b} + {a <> b}.
Proof. decide equality. Defined.

Definition CompletionKind_eqb (a b : CompletionKind) : bool :=
  if CompletionKind_eq_dec a b then true else false.

Record CompletionData : Type :=
  { kind_ : CompletionKind;
    everything_except_return_type_ : string;
    doc_string_ : string;
    call_string_ : string;
    key_string_ : string;
    brief_ : string;
    detailed_info_ : string;
    return_type_ : string }.

(** The accessors of the struct. *)
Definition TextToInsertInBuffer (d : CompletionData) : string := call_string_ d.
Definition MainCompletionText (d : CompletionData) : string :=
  everything_except_return_type_ d.
Definition ExtraMenuInfo (d : CompletionData) : string := return_type_ d.
Definition DetailedInfoForPreviewWindow (d : CompletionData) : string :=
  detailed_info_ d.
Definition DocString (d : CompletionData) : string := doc_string_ d.
Definition Brief (d : CompletionData) : string := brief_ d.

(** [operator==]. *)
Definition CompletionData_eq (this other : CompletionData) : bool :=
  CompletionKind_eqb (kind_ this) (kind_ other) &&
  String.eqb (everything_except_return_type_ this)
             (everything_except_return_type_ other) &&
  String.eqb (return_type_ this) (return_type_ other).

(** The static data member and its two setters. *)
Record Statics : Type := { extra_space_ : string }.

Definition initial_statics : Statics := {| extra_space_ := "" |}.
Definition EnableExtraSpace (_ : Statics) : Statics := {| extra_space_ := " " |}.
Definition DisableExtraSpace (_ : Statics) : Statics := {| extra_space_ := "" |}.

(** Member updates, one per member the code assigns or appends to. *)
Definition set_kind (k : CompletionKind) (d : CompletionData) : CompletionData :=
  {| kind_ := k;
     everything_except_return_type_ := everything_except_return_type_ d;
     doc_string_ := doc_string_ d;
     call_string_ := call_string_ d;
     key_string_ := key_string_ d;
     brief_ := brief_ d;
     detailed_info_ := detailed_info_ d;
     return_type_ := return_type_ d |}.

Definition set_everything (s : string) (d : CompletionData) : CompletionData :=
  {| kind_ := kind_ d;
     everything_except_return_type_ := s;
     doc_string_ := doc_string_ d;
     call_string_ := call_string_ d;
     key_string_ := key_string_ d;
     brief_ := brief_ d;
     detailed_info_ := detailed_info_ d;
     return_type_ := return_type_ d |}.

Definition set_doc_string (s : string) (d : CompletionData) : CompletionData :=
  {| kind_ := kind_ d;
     everything_except_return_type_ := everything_except_return_type_ d;
     doc_string_ := s;
     call_string_ := call_string_ d;
     key_string_ := key_string_ d;
     brief_ := brief_ d;
     detailed_info_ := detailed_info_ d;
     return_type_ := return_type_ d |}.

Definition set_call_string (s : string) (d : CompletionData) : CompletionData :=
  {| kind_ := kind_ d;
     everything_except_return_type_ := everything_except_return_type_ d;
     doc_string_ := doc_string_ d;
     call_string_ := s;
     key_string_ := key_string_ d;
     brief_ := brief_ d;
     detailed_info_ := detailed_info_ d;
     return_type_ := return_type_ d |}.

Definition set_key_string (s : string) (d : CompletionData) : CompletionData :=
  {| kind_ := kind_ d;
     everything_except_return_type_ := everything_except_return_type_ d;
     doc_string_ := doc_string_ d;
     call_string_ := call_string_ d;
     key_string_ := s;
     brief_ := brief_ d;
     detailed_info_ := detailed_info_ d;
     return_type_ := return_type_ d |}.

Definition set_brief (s : string) (d : CompletionData) : CompletionData :=
  {| kind_ := kind_ d;
     everything_except_return_type_ := everything_except_return_type_ d;
     doc_string_ := doc_string_ d;
     call_string_ := call_string_ d;
     key_string_ := key_string_ d;
     brief_ := s;
     detailed_info_ := detailed_info_ d;
     return_type_ := return_type_ d |}.

Definition set_detailed_info (s : string) (d : CompletionData) : CompletionData :=
  {| kind_ := kind_ d;
     everything_except_return_type_ := everything_except_return_type_ d;
     doc_string_ := doc_string_ d;
     call_string_ := call_string_ d;
     key_string_ := key_string_ d;
     brief_ := brief_ d;
     detailed_info_ := s;
     return_type_ := return_type_ d |}.

Definition set_return_type (s : string) (d : CompletionData) : CompletionData :=
  {| kind_ := kind_ d;
     everything_except_return_type_ := everything_except_return_type_ d;
     doc_string_ := doc_string_ d;
     call_string_ := call_string_ d;
     key_string_ := key_string_ d;
     brief_ := brief_ d;
     detailed_info_ := detailed_info_ d;
     return_type_ := s |}.

(** [AppendExtraSpaceIfNeeded]: the static string goes onto two members. *)
Definition AppendExtraSpaceIfNeeded (g : Statics) (d : CompletionData)
  : CompletionData :=
  let d1 := set_call_string (call_string_ d ++ extra_space_ g) d in
  set_everything (everything_except_return_type_ d1 ++ extra_space_ g) d1.

(** ** CompletionData.cpp: the unnamed namespace *)

Definition CursorKindToCompletionKind (kind : CXCursorKind) : CompletionKind :=
  match kind with
  | CXCursor_StructDecl => STRUCT
  | CXCursor_ClassDecl
  | CXCursor_ClassTemplate => CLASS
  | CXCursor_EnumDecl => ENUM
  | CXCursor_UnexposedDecl
  | CXCursor_UnionDecl
  | CXCursor_TypedefDecl => TYPE
  | CXCursor_FieldDecl => MEMBER
  | CXCursor_FunctionDecl
  | CXCursor_CXXMethod
  | CXCursor_FunctionTemplate
  | CXCursor_ConversionFunction
  | CXCursor_Constructor
  | CXCursor_Destructor => FUNCTION
  | CXCursor_VarDecl => VARIABLE
  | CXCursor_MacroDefinition => MACRO
  | CXCursor_ParmDecl => PARAMETER
  | CXCursor_Namespace
  | CXCursor_NamespaceAlias => NAMESPACE
  | CXCursor_Unlisted => UNKNOWN
  end.

Definition IsMainCompletionTextInfo (kind : CXCompletionChunkKind) : bool :=
  match kind with
  | CXCompletionChunk_Optional
  | CXCompletionChunk_TypedText
  | CXCompletionChunk_Placeholder
  | CXCompletionChunk_LeftParen
  | CXCompletionChunk_RightParen
  | CXCompletionChunk_RightBracket
  | CXCompletionChunk_LeftBracket
  | CXCompletionChunk_LeftBrace
  | CXCompletionChunk_RightBrace
  | CXCompletionChunk_RightAngle
  | CXCompletionChunk_LeftAngle
  | CXCompletionChunk_Comma
  | CXCompletionChunk_Colon
  | CXCompletionChunk_SemiColon
  | CXCompletionChunk_Equal
  | CXCompletionChunk_Informative
  | CXCompletionChunk_HorizontalSpace => true
  | _ => false
  end.

(** [kind == K] on chunk kinds. *)
Definition kind_is (kind k : CXCompletionChunkKind) : bool :=
  if chunk_kind_eq_dec kind k then true else false.

(** The four marker strings of the source, three bytes each. *)
Definition top_open : string := "⟪".
Definition top_close : string := "⟫".
Definition nested_open : string := "⟦".
Definition nested_close : string := "⟧".

(** [ChunkToString].  The source addresses a chunk by a completion string and
    an index; the embedding passes the chunk so addressed.  Every caller has
    already tested the completion string against null, so the function's own
    test of it has no counterpart here. *)
Definition ChunkToString (chunk : Chunk)
    (opening_placeholder_delimiter closing_placeholder_delimiter : string)
  : string :=
  let kind := Kind chunk in
  let completion_text := Text chunk in
  if kind_is kind CXCompletionChunk_Placeholder
  then opening_placeholder_delimiter ++ completion_text
         ++ closing_placeholder_delimiter
  else completion_text.

(** [OptionalChunkToString], on the chunk that the completion string and the
    index address (the caller's completion string is never null).  A null
    nested completion string gives the empty string; otherwise the loop over
    its chunks is a left fold that appends to [final_string]. *)
Fixpoint OptionalChunkToString (chunk : Chunk) : string :=
  match Nested chunk with
  | None => ""
  | Some optional_completion_string =>
      fold_left
        (fun final_string c =>
           if kind_is (Kind c) CXCompletionChunk_Optional
           then final_string ++ OptionalChunkToString c
           else final_string ++ ChunkToString c nested_open nested_close)
        optional_completion_string ""
  end.

(** *** boost::erase_all *)

Fixpoint starts_with (search input : string) : bool :=
  match search, input with
  | "", _ => true
  | String _ _, "" => false
  | String a search', String b input' =>
      Ascii.eqb a b && starts_with search' input'
  end.

(** One left-to-right pass: [skip] counts the bytes of the current match that
    are still to be dropped. *)
Fixpoint erase_from (search : string) (skip : nat) (input : string) : string :=
  match input with
  | "" => ""
  | String c rest =>
      match skip with
      | S k => erase_from search k rest
      | O =>
          if starts_with search input
          then erase_from search (String.length search - 1) rest
          else String c (erase_from search 0 rest)
      end
  end.

(** Modelled from the spec: [boost::erase_all] is library code outside the
    sources.  The spec has it remove every occurrence of the search string;
    the library finds the occurrences in one left-to-right pass over the
    input, each search resuming where the previous match ended, and finds
    nothing when the search string is empty. *)
Definition erase_all (input search : string) : string :=
  match search with
  | "" => input
  | String _ _ => erase_from search 0 input
  end.

Definition RemoveTwoConsecutiveUnderscores (text : string) : string :=
  erase_all text "__".

Definition RemoveParameterMarkers (text : string) : string :=
  let text := erase_all text "⟪" in
  let text := erase_all text "⟫" in
  let text := erase_all text "⟦" in
  erase_all text "⟧".

(** *** cv_re and boost::regex_replace *)

(** [\s] and [\w] in the classic locale. *)
Definition is_space (c : ascii) : bool :=
  let n := nat_of_ascii c in
  ((n =? 32) || ((9 <=? n) && (n <=? 13)))%nat.

Definition is_word (c : ascii) : bool :=
  let n := nat_of_ascii c in
  (((48 <=? n) && (n <=? 57)) || ((65 <=? n) && (n <=? 90))
   || ((97 <=? n) && (n <=? 122)) || (n =? 95))%nat.

Fixpoint drop (n : nat) (s : string) : string :=
  match n, s with
  | S k, String _ rest => drop k rest
  | _, _ => s
  end.

Definition next_is_word (s : string) : bool :=
  match s with
  | String c _ => is_word c
  | "" => false
  end.

(** Whether the last byte of [a] is a word character; [prev_is_word] answers
    for the byte before [a] when [a] is empty. *)
Fixpoint last_is_word (prev_is_word : bool) (a : string) : bool :=
  match a with
  | "" => prev_is_word
  | String c rest => last_is_word (is_word c) rest
  end.

(** The constructs of the regular-expression syntax that [cv_re] uses. *)
Inductive regex : Set :=
| re_spaces                       (* \s*, greedy *)
| re_word_start                   (* \< *)
| re_word_end                     (* \> *)
| re_literal (l : string)
| re_alt (r1 r2 : regex)          (* r1|r2 *)
| re_seq (r1 r2 : regex).

(** [boost::regex cv_re("\\s*\\<(?:const|volatile)\\>\\s*")]. *)
Definition cv_re : regex :=
  re_seq re_spaces
    (re_seq re_word_start
       (re_seq (re_alt (re_literal "const") (re_literal "volatile"))
          (re_seq re_word_end re_spaces))).

(** A backtracking matcher in continuation-passing style.  A continuation
    gets: whether the byte behind the current position is a word character,
    the text ahead, and the number of bytes matched so far; it answers with
    the length of the whole match, or [None] to make the matcher backtrack. *)
Definition continuation : Type := bool -> string -> nat -> option nat.

(** [\s*]: the longest run of white space first, then shorter ones. *)
Fixpoint match_spaces (k : continuation) (prev_is_word : bool) (s : string)
    (n : nat) : option nat :=
  match s with
  | String c rest =>
      if is_space c then
        match match_spaces k (is_word c) rest (S n) with
        | Some m => Some m
        | None => k prev_is_word s n
        end
      else k prev_is_word s n
  | "" => k prev_is_word s n
  end.

Fixpoint match_regex (r : regex) (k : continuation) (prev_is_word : bool)
    (s : string) (n : nat) : option nat :=
  match r with
  | re_spaces => match_spaces k prev_is_word s n
  | re_word_start =>
      if negb prev_is_word && next_is_word s then k prev_is_word s n else None
  | re_word_end =>
      if prev_is_word && negb (next_is_word s) then k prev_is_word s n
      else None
  | re_literal l =>
      if starts_with l s
      then k (last_is_word prev_is_word l) (drop (String.length l) s)
             (n + String.length l)
      else None
  | re_alt r1 r2 =>
      match match_regex r1 k prev_is_word s n with
      | Some m => Some m
      | None => match_regex r2 k prev_is_word s n
      end
  | re_seq r1 r2 => match_regex r1 (match_regex r2 k) prev_is_word s n
  end.

(** The match of [r] that starts at the head of [s], if there is one: its
    length. *)
Definition regex_match_here (r : regex) (prev_is_word : bool) (s : string)
  : option nat :=
  match_regex r (fun _ _ n => Some n) prev_is_word s 0.

(** One pass that drops every match: the leftmost match first, then on from
    the end of that match; an empty match drops nothing. *)
Fixpoint regex_replace_from (r : regex) (skip : nat) (prev_is_word : bool)
    (s : string) : string :=
  match s with
  | "" => ""
  | String c rest =>
      match skip with
      | S k => regex_replace_from r k (is_word c) rest
      | O =>
          match regex_match_here r prev_is_word s with
          | Some (S m) => regex_replace_from r m (is_word c) rest
          | _ => String c (regex_replace_from r 0 (is_word c) rest)
          end
      end
  end.

(** Modelled from the spec: [boost::regex_replace (text, e, "")]; the regex
    engine is library code outside the sources.  The spec has the call with
    [cv_re] remove the whole words const and volatile with the white space
    around them; the library replaces the leftmost match by the empty format
    string, then goes on from the end of that match, still seeing the byte
    before it. *)
Definition regex_replace (text : string) (e : regex) : string :=
  regex_replace_from e 0 false text.

(** ** CompletionData.cpp: the members *)

Definition newline : string := String (ascii_of_nat 10) "".

(** What [ExtractDataFromChunk] reads and writes: the object and the two
    [bool&] arguments. *)
Record scan_state : Type :=
  { this : CompletionData;
    saw_left_paren : bool;
    saw_function_params : bool }.

Definition on_this (f : CompletionData -> CompletionData) (st : scan_state)
  : scan_state :=
  {| this := f (this st);
     saw_left_paren := saw_left_paren st;
     saw_function_params := saw_function_params st |}.

Definition ExtractDataFromChunk (g : Statics) (chunk : Chunk) (st : scan_state)
  : scan_state :=
  let kind := Kind chunk in
  let st :=
    if IsMainCompletionTextInfo kind then
      let st :=
        if kind_is kind CXCompletionChunk_LeftParen then
          {| this := this st;
             saw_left_paren := true;
             saw_function_params := saw_function_params st |}
        else if saw_left_paren st
                && negb (saw_function_params st)
                && negb (kind_is kind CXCompletionChunk_RightParen)
                && negb (kind_is kind CXCompletionChunk_Informative) then
          {| this := AppendExtraSpaceIfNeeded g (this st);
             saw_left_paren := saw_left_paren st;
             saw_function_params := true |}
        else if saw_function_params st
                && kind_is kind CXCompletionChunk_RightParen then
          on_this (AppendExtraSpaceIfNeeded g) st
        else st in
      if kind_is kind CXCompletionChunk_Optional then
        let chunk_s := OptionalChunkToString chunk in
        on_this (fun d =>
          let d := set_call_string (call_string_ d ++ chunk_s) d in
          set_everything (everything_except_return_type_ d ++ chunk_s) d) st
      else
        let chunk_s := ChunkToString chunk top_open top_close in
        on_this (fun d =>
          let d :=
            if negb (kind_is kind CXCompletionChunk_Informative)
            then set_call_string (call_string_ d ++ chunk_s) d
            else d in
          set_everything (everything_except_return_type_ d ++ chunk_s) d) st
    else st in
  if kind_is kind CXCompletionChunk_ResultType
  then on_this (set_return_type (ChunkToString chunk top_open top_close)) st
  else st.

(** The object as the constructor body finds it: every [std::string] member
    default-constructed, and [kind_], which has no initialiser, holding
    whatever its storage held. *)
Definition default_initialized (indeterminate : CompletionKind)
  : CompletionData :=
  {| kind_ := indeterminate;
     everything_except_return_type_ := "";
     doc_string_ := "";
     call_string_ := "";
     key_string_ := "";
     brief_ := "";
     detailed_info_ := "";
     return_type_ := "" |}.

Definition is_empty (s : string) : bool :=
  match s with "" => true | String _ _ => false end.

(** [CompletionData::CompletionData (const CXCompletionResult &)].  The loop
    over the chunk indices is a left fold over the chunks. *)
Definition CompletionData_ctor (g : Statics) (indeterminate : CompletionKind)
    (completion_result : CXCompletionResult) : CompletionData :=
  let d := default_initialized indeterminate in
  match CompletionString completion_result with
  | None => d
  | Some completion_string =>
      let st :=
        fold_left (fun st chunk => ExtractDataFromChunk g chunk st)
          (Chunks completion_string)
          {| this := d;
             saw_left_paren := false;
             saw_function_params := false |} in
      let d := this st in
      let d :=
        set_kind (CursorKindToCompletionKind (CursorKind completion_result)) d in
      let d :=
        set_everything
          (RemoveTwoConsecutiveUnderscores (everything_except_return_type_ d))
          d in
      let d :=
        set_everything
          (RemoveParameterMarkers (everything_except_return_type_ d)) d in
      let d :=
        set_call_string (RemoveTwoConsecutiveUnderscores (call_string_ d)) d in
      let d :=
        set_key_string
          (regex_replace (RemoveParameterMarkers (call_string_ d)) cv_re) d in
      let d := set_brief (BriefComment completion_string) d in
      let d :=
        if negb (is_empty (brief_ d))
        then set_detailed_info ((detailed_info_ d ++ brief_ d) ++ newline) d
        else d in
      let d :=
        set_detailed_info
          ((((detailed_info_ d ++ return_type_ d) ++ " ")
              ++ everything_except_return_type_ d) ++ newline) d in
      set_doc_string (BriefComment completion_string) d
  end.

(** ** What one chunk contributes

    The scan written as a recursion on the chunk list: the paren state after
    a chunk, and the text the chunk puts on each accumulator.  The lemmas
    [ExtractDataFromChunk_eq] and [scan_eq] below show that this is what the
    source's loop computes. *)

(** The two [else if] conditions under which [AppendExtraSpaceIfNeeded] runs. *)
Definition emits_space (l p : bool) (kind : CXCompletionChunkKind) : bool :=
  IsMainCompletionTextInfo kind
  && negb (kind_is kind CXCompletionChunk_LeftParen)
  && ((l && negb p
       && negb (kind_is kind CXCompletionChunk_RightParen)
       && negb (kind_is kind CXCompletionChunk_Informative))
      || (p && kind_is kind CXCompletionChunk_RightParen)).

Definition next_left_paren (l : bool) (kind : CXCompletionChunkKind) : bool :=
  if kind_is kind CXCompletionChunk_LeftParen then true else l.

Definition next_function_params (l p : bool) (kind : CXCompletionChunkKind)
  : bool :=
  if IsMainCompletionTextInfo kind
     && negb (kind_is kind CXCompletionChunk_LeftParen)
     && l && negb p
     && negb (kind_is kind CXCompletionChunk_RightParen)
     && negb (kind_is kind CXCompletionChunk_Informative)
  then true else p.

Definition space_piece (g : Statics) (l p : bool) (kind : CXCompletionChunkKind)
  : string :=
  if emits_space l p kind then extra_space_ g else "".

(** Text a chunk appends to [everything_except_return_type_]. *)
Definition main_piece (g : Statics) (l p : bool) (c : Chunk) : string :=
  if IsMainCompletionTextInfo (Kind c) then
    space_piece g l p (Kind c)
    ++ (if kind_is (Kind c) CXCompletionChunk_Optional
        then OptionalChunkToString c
        else ChunkToString c top_open top_close)
  else "".

(** Text a chunk appends to [call_string_]. *)
Definition call_piece (g : Statics) (l p : bool) (c : Chunk) : string :=
  if IsMainCompletionTextInfo (Kind c) then
    space_piece g l p (Kind c)
    ++ (if kind_is (Kind c) CXCompletionChunk_Optional
        then OptionalChunkToString c
        else if kind_is (Kind c) CXCompletionChunk_Informative then ""
        else ChunkToString c top_open top_close)
  else "".

Fixpoint scan_main (g : Statics) (l p : bool) (chunks : list Chunk) : string :=
  match chunks with
  | [] => ""
  | c :: rest =>
      main_piece g l p c
      ++ scan_main g (next_left_paren l (Kind c))
           (next_function_params l p (Kind c)) rest
  end.

Fixpoint scan_call (g : Statics) (l p : bool) (chunks : list Chunk) : string :=
  match chunks with
  | [] => ""
  | c :: rest =>
      call_piece g l p c
      ++ scan_call g (next_left_paren l (Kind c))
           (next_function_params l p (Kind c)) rest
  end.

(** The return type after the scan: the text of the last ResultType chunk. *)
Fixpoint scan_return (r : string) (chunks : list Chunk) : string :=
  match chunks with
  | [] => r
  | c :: rest =>
      scan_return (if kind_is (Kind c) CXCompletionChunk_ResultType
                   then Text c else r) rest
  end.

(** The paren state after a run of chunks. *)
Fixpoint paren_after (l p : bool) (chunks : list Chunk) : bool * bool :=
  match chunks with
  | [] => (l, p)
  | c :: rest =>
      paren_after (next_left_paren l (Kind c))
        (next_function_params l p (Kind c)) rest
  end.

(** ** Vocabulary of the statements *)

(** A chunk that has no nested completion string. *)
Definition leaf (kind : CXCompletionChunkKind) (text : string) : Chunk :=
  {| Kind := kind; Text := text; Nested := None |}.

(** A completion result with a completion string. *)
Definition result_of (ck : CXCursorKind) (chunks : list Chunk) (brief : string)
  : CXCompletionResult :=
  {| CursorKind := ck;
     CompletionString := Some {| Chunks := chunks; BriefComment := brief |} |}.

(** A completion result whose completion string is the null pointer. *)
Definition null_result (ck : CXCursorKind) : CXCompletionResult :=
  {| CursorKind := ck; CompletionString := None |}.

(** The chunk sequence of a result is null or has no chunk. *)
Definition no_chunks (r : CXCompletionResult) : Prop :=
  match CompletionString r with
  | None => True
  | Some completion_string => Chunks completion_string = []
  end.

Definition all_strings_empty (d : CompletionData) : Prop :=
  call_string_ d = "" /\ everything_except_return_type_ d = ""
  /\ return_type_ d = "" /\ key_string_ d = "" /\ brief_ d = ""
  /\ detailed_info_ d = "" /\ doc_string_ d = "".

(** A chunk the spec calls malformed: a kind outside the enumeration, or an
    Optional chunk without a nested completion string. *)
Definition malformed (c : Chunk) : Prop :=
  Kind c = CXCompletionChunk_Invalid
  \/ (Kind c = CXCompletionChunk_Optional /\ Nested c = None).

(** Concatenation of a list of strings. *)
Definition join (l : list string) : string := fold_right append "" l.

(** What [OptionalChunkToString] appends for one chunk of the nested
    completion string. *)
Definition nested_piece (c : Chunk) : string :=
  if kind_is (Kind c) CXCompletionChunk_Optional
  then OptionalChunkToString c
  else ChunkToString c nested_open nested_close.

(** The chunks below an Optional chunk that are not themselves Optional,
    reached through Optional chunks only, in rendering order. *)
Fixpoint optional_leaves (c : Chunk) : list Chunk :=
  match Nested c with
  | None => []
  | Some l =>
      flat_map
        (fun x =>
           if kind_is (Kind x) CXCompletionChunk_Optional
           then optional_leaves x else [x])
        l
  end.

(** Induction on chunks, with the nested completion string as hypothesis. *)
Fixpoint Chunk_nested_ind (P : Chunk -> Prop)
    (step : forall k t n,
        match n with None => True | Some l => Forall P l end ->
        P (mkChunk k t n))
    (c : Chunk) {struct c} : P c :=
  match c with
  | mkChunk k t n =>
      step k t n
        (match n return match n with None => True | Some l => Forall P l end
         with
         | None => I
         | Some l =>
             (fix all (l : list Chunk) : Forall P l :=
                match l with
                | [] => Forall_nil P
                | x :: xs =>
                    Forall_cons x (Chunk_nested_ind P step x) (all xs)
                end) l
         end)
  end.

(** Every byte of a string passes a test. *)
Fixpoint string_forallb (f : ascii -> bool) (s : string) : bool :=
  match s with
  | "" => true
  | String c rest => f c && string_forallb f rest
  end.

Definition not_underscore (c : ascii) : bool := negb (Ascii.eqb c "_").

(** Inputs of the examples. *)
Definition optional_with_hint : list Chunk :=
  [mkChunk CXCompletionChunk_Optional ""
     (Some [leaf CXCompletionChunk_Informative "x"])].

Definition optional_without_hint : list Chunk :=
  [mkChunk CXCompletionChunk_Optional "" (Some [])].

Definition two_level_optional : list Chunk :=
  [leaf CXCompletionChunk_TypedText "f";
   leaf CXCompletionChunk_LeftParen "(";
   leaf CXCompletionChunk_Placeholder "int a";
   mkChunk CXCompletionChunk_Optional ""
     (Some [leaf CXCompletionChunk_Comma ", ";
            leaf CXCompletionChunk_Placeholder "int b";
            mkChunk CXCompletionChunk_Optional ""
              (Some [leaf CXCompletionChunk_Comma ", ";
                     leaf CXCompletionChunk_Placeholder "int c"])]);
   leaf CXCompletionChunk_RightParen ")"].

Definition deep_placeholder : Chunk :=
  leaf CXCompletionChunk_Placeholder "int __n".

Definition deep_optional : Chunk :=
  mkChunk CXCompletionChunk_Optional ""
    (Some [leaf CXCompletionChunk_Optional "";
           mkChunk CXCompletionChunk_Optional "" (Some [deep_placeholder])]).

(** ** Texts in which no three-byte sequence is cut

    The four markers are three-byte sequences that start with the byte 226
    (0xE2).  A text is [aligned] when every byte 226 in it is followed by two
    continuation bytes (128 to 191) that belong to it.  Well-formed UTF-8 is
    aligned: there 226 only occurs as the first byte of a three-byte
    sequence, and a continuation byte is never 226. *)

Definition lead_byte : ascii := "226"%char.

Definition is_lead (c : ascii) : bool := Ascii.eqb c lead_byte.

Definition is_continuation (c : ascii) : bool :=
  let n := nat_of_ascii c in ((128 <=? n) && (n <=? 191))%nat.

Fixpoint aligned (s : string) : bool :=
  match s with
  | "" => true
  | String c rest =>
      if is_lead c then
        match rest with
        | String x (String y rest') =>
            is_continuation x && is_continuation y && aligned rest'
        | _ => false
        end
      else aligned rest
  end.

(** Every text of a chunk and of the chunks nested in it is aligned. *)
Fixpoint chunk_aligned (c : Chunk) : bool :=
  aligned (Text c)
  && match Nested c with
     | None => true
     | Some l => forallb chunk_aligned l
     end.

Definition result_aligned (r : CXCompletionResult) : bool :=
  match CompletionString r with
  | None => true
  | Some completion_string => forallb chunk_aligned (Chunks completion_string)
  end.

(** Well-formed UTF-8 (the byte sequences of the Unicode standard's table of
    well-formed sequences), to show what [aligned] asks for. *)
Definition in_range (lo hi : nat) (c : ascii) : bool :=
  let n := nat_of_ascii c in ((lo <=? n) && (n <=? hi))%nat.

Fixpoint utf8_well_formed (s : string) : bool :=
  match s with
  | "" => true
  | String c0 r0 =>
      if in_range 0 127 c0 then utf8_well_formed r0
      else
        match r0 with
        | "" => false
        | String c1 r1 =>
            if in_range 194 223 c0
            then in_range 128 191 c1 && utf8_well_formed r1
            else
              match r1 with
              | "" => false
              | String c2 r2 =>
                  if in_range 224 239 c0 then
                    (if in_range 224 224 c0 then in_range 160 191 c1
                     else if in_range 237 237 c0 then in_range 128 159 c1
                     else in_range 128 191 c1)
                    && in_range 128 191 c2 && utf8_well_formed r2
                  else
                    match r2 with
                    | "" => false
                    | String c3 r3 =>
                        in_range 240 244 c0
                        && (if in_range 240 240 c0 then in_range 144 191 c1
                            else if in_range 244 244 c0
                                 then in_range 128 143 c1
                                 else in_range 128 191 c1)
                        && in_range 128 191 c2 && in_range 128 191 c3
                        && utf8_well_formed r3
                    end
              end
        end
  end.

(** An aligned text read as a list of items: single bytes other than 226,
    and three-byte sequences, given by their second and third byte. *)
Inductive item : Set :=
| Single (c : ascii)
| Triple (x y : ascii).

Definition item_ok (i : item) : bool :=
  match i with
  | Single c => negb (is_lead c)
  | Triple x y => is_continuation x && is_continuation y
  end.

Fixpoint bytes_of (l : list item) : string :=
  match l with
  | [] => ""
  | Single c :: rest => String c (bytes_of rest)
  | Triple x y :: rest =>
      String lead_byte (String x (String y (bytes_of rest)))
  end.

Definition is_triple (x y : ascii) (i : item) : bool :=
  match i with
  | Single _ => false
  | Triple a b => Ascii.eqb x a && Ascii.eqb y b
  end.

Definition Aligned (s : string) : Prop :=
  exists l : list item, forallb item_ok l = true /\ bytes_of l = s.

(** [search] occurs in [s] as a run of consecutive bytes. *)
Fixpoint occurs (search s : string) : bool :=
  starts_with search s
  || match s with
     | "" => false
     | String _ rest => occurs search rest
     end.

(** The bytes 226 159, the marker ⟫, and the byte 170: the marker ⟪ cut in
    two by the marker ⟫. *)
Definition split_marker : string :=
  String "226" (String "159" ("⟫" ++ String "170" "")).

(** A byte below 128: neither the byte 226 nor a continuation byte. *)
Definition is_plain (c : ascii) : bool := (nat_of_ascii c <? 128)%nat.

(** [deletes_plain s s']: [s'] is [s] with some plain bytes deleted. *)
Inductive deletes_plain : string -> string -> Prop :=
| deletes_none : deletes_plain "" ""
| deletes_keep (c : ascii) (s s' : string) :
    deletes_plain s s' -> deletes_plain (String c s) (String c s')
| deletes_drop (c : ascii) (s s' : string) :
    is_plain c = true -> deletes_plain s s' -> deletes_plain (String c s) s'.

(** The four filters that [RemoveParameterMarkers] amounts to on items. *)
Definition without_markers (l : list item) : list item :=
  filter (fun i => negb (is_triple "159" "167" i))
    (filter (fun i => negb (is_triple "159" "166" i))
       (filter (fun i => negb (is_triple "159" "171" i))
          (filter (fun i => negb (is_triple "159" "170" i)) l))).

(** A variable whose name is the cut marker. *)
Definition cut_marker_result : CXCompletionResult :=
  result_of CXCursor_VarDecl [leaf CXCompletionChunk_TypedText split_marker] "".

(** A function with one parameter whose name is reserved. *)
Definition reserved_parameter_chunks : list Chunk :=
  [leaf CXCompletionChunk_ResultType "void";
   leaf CXCompletionChunk_TypedText "seek";
   leaf CXCompletionChunk_LeftParen "(";
   leaf CXCompletionChunk_Placeholder "const size_t __pos";
   leaf CXCompletionChunk_RightParen ")"].

Definition reserved_parameter_result : CXCompletionResult :=
  result_of CXCursor_FunctionDecl reserved_parameter_chunks "".

(** ** Whole words const and volatile *)

Fixpoint take (n : nat) (s : string) : string :=
  match n, s with
  | S k, String c rest => String c (take k rest)
  | _, _ => ""
  end.

Fixpoint count_spaces (s : string) : nat :=
  match s with
  | String c rest => if is_space c then S (count_spaces rest) else 0
  | "" => 0
  end.

(** The alternation [(?:const|volatile)] at the head of [s]: the length of the
    alternative that matches. *)
Definition cv_keyword (s : string) : option nat :=
  if starts_with "const" s then Some 5
  else if starts_with "volatile" s then Some 8
  else None.

(** The match of [cv_re] at the head of [s] without backtracking (lemma
    [cv_re_match_eq]): the leading [\s*] has to take the whole run of white
    space, since a keyword starts with a letter; [\<] wants a non-word byte
    behind and a word byte ahead, [\>] the reverse; the trailing [\s*] takes
    all the white space there is. *)
Definition cv_re_match (prev_is_word : bool) (s : string) : option nat :=
  let lead := count_spaces s in
  let s1 := drop lead s in
  let behind := if (lead =? 0)%nat then prev_is_word else false in
  if negb behind && next_is_word s1 then
    match cv_keyword s1 with
    | Some k =>
        let s2 := drop k s1 in
        if negb (next_is_word s2)
        then Some (lead + k + count_spaces s2)
        else None
    | None => None
    end
  else None.

(** The pass of [regex_replace] for [cv_re], on [cv_re_match] (lemma
    [regex_replace_cv_re_eq]). *)
Fixpoint cv_replace_from (skip : nat) (prev_is_word : bool) (s : string)
  : string :=
  match s with
  | "" => ""
  | String c rest =>
      match skip with
      | S k => cv_replace_from k (is_word c) rest
      | O =>
          match cv_re_match prev_is_word s with
          | Some n => cv_replace_from (n - 1) (is_word c) rest
          | None => String c (cv_replace_from 0 (is_word c) rest)
          end
      end
  end.

(** const or volatile stands at the head of [s] as a whole word. *)
Definition cv_word_at (prev_is_word : bool) (s : string) : bool :=
  negb prev_is_word
  && match cv_keyword s with
     | Some k => negb (next_is_word (drop k s))
     | None => false
     end.

(** const or volatile stands somewhere in [s] as a whole word. *)
Fixpoint has_cv_word (prev_is_word : bool) (s : string) : bool :=
  cv_word_at prev_is_word s
  || match s with
     | "" => false
     | String c rest => has_cv_word (is_word c) rest
     end.

(** Which bytes of the text [cv_replace_from] keeps: the same pass, with a
    flag per byte in place of the byte. *)
Fixpoint regex_keep_from (skip : nat) (prev_is_word : bool) (s : string)
  : list bool :=
  match s with
  | "" => []
  | String c rest =>
      match skip with
      | S k => false :: regex_keep_from k (is_word c) rest
      | O =>
          match cv_re_match prev_is_word s with
          | Some n => false :: regex_keep_from (n - 1) (is_word c) rest
          | None => true :: regex_keep_from 0 (is_word c) rest
          end
      end
  end.

(** The bytes of [s] whose flag is set. *)
Fixpoint select (keep : list bool) (s : string) : string :=
  match keep, s with
  | k :: keep', String c rest =>
      if k then String c (select keep' rest) else select keep' rest
  | _, _ => ""
  end.

(** A chunk text in which the two halves of const stand apart. *)
Definition joined_const_result : CXCompletionResult :=
  result_of CXCursor_VarDecl
    [leaf CXCompletionChunk_TypedText "co const nst"] "".

(** ** Vocabulary of the further properties *)

(** [subseq s' s]: [s'] is [s] with some bytes deleted, the order kept. *)
Inductive subseq : string -> string -> Prop :=
| subseq_nil : subseq "" ""
| subseq_keep (c : ascii) (s' s : string) :
    subseq s' s -> subseq (String c s') (String c s)
| subseq_drop (c : ascii) (s' s : string) :
    subseq s' s -> subseq s' (String c s).

(** The chunks of a result; none for the null completion string. *)
Definition chunks_of (r : CXCompletionResult) : list Chunk :=
  match CompletionString r with
  | None => []
  | Some completion_string => Chunks completion_string
  end.

(** The loop of the constructor, from any scan state. *)
Definition scan (g : Statics) (chunks : list Chunk) (st : scan_state)
  : scan_state :=
  fold_left (fun st chunk => ExtractDataFromChunk g chunk st) chunks st.

(** Inputs of the witnesses. *)
Definition seek_chunks_with_current_parameter : list Chunk :=
  [leaf CXCompletionChunk_TypedText "seek";
   leaf CXCompletionChunk_LeftParen "("].

Definition member_result : CXCompletionResult :=
  result_of CXCursor_FieldDecl
    [leaf CXCompletionChunk_ResultType "int";
     leaf CXCompletionChunk_TypedText "count_"] "number of items".

(** One well-formed UTF-8 sequence: the encoding of one code point, by the
    same table as [utf8_well_formed]. *)
Definition valid_seq (q : string) : bool :=
  match q with
  | String c0 "" => in_range 0 127 c0
  | String c0 (String c1 "") => in_range 194 223 c0 && in_range 128 191 c1
  | String c0 (String c1 (String c2 "")) =>
      in_range 224 239 c0
      && (if in_range 224 224 c0 then in_range 160 191 c1
          else if in_range 237 237 c0 then in_range 128 159 c1
          else in_range 128 191 c1)
      && in_range 128 191 c2
  | String c0 (String c1 (String c2 (String c3 ""))) =>
      in_range 240 244 c0
      && (if in_range 240 240 c0 then in_range 144 191 c1
          else if in_range 244 244 c0 then in_range 128 143 c1
          else in_range 128 191 c1)
      && in_range 128 191 c2 && in_range 128 191 c3
  | _ => false
  end.

(** A text that is a run of well-formed sequences. *)
Definition Utf8 (s : string) : Prop :=
  exists qs : list string, forallb valid_seq qs = true /\ join qs = s.

(** Every text of a chunk and of the chunks nested in it passes [ok]. *)
Fixpoint chunk_texts (ok : string -> bool) (c : Chunk) : bool :=
  ok (Text c)
  && match Nested c with
     | None => true
     | Some l => forallb (chunk_texts ok) l
     end.

(** A method with a parameter whose name is not ASCII. *)
Definition utf8_chunks : list Chunk :=
  [leaf CXCompletionChunk_ResultType "void";
   leaf CXCompletionChunk_TypedText "größe";
   leaf CXCompletionChunk_LeftParen "(";
   leaf CXCompletionChunk_Placeholder "const Länge& __λ";
   mkChunk CXCompletionChunk_Optional ""
     (Some [leaf CXCompletionChunk_Comma ", ";
            leaf CXCompletionChunk_Placeholder "int 数"]);
   leaf CXCompletionChunk_RightParen ")"].

(** * Properties *)

(** ** Strings *)

Lemma append_nil_r (s : string) : s ++ "" = s.
Proof. induction s as [|c s IH]; simpl; [reflexivity | now rewrite IH]. Qed.

Lemma append_assoc (a b c : string) : (a ++ b) ++ c = a ++ (b ++ c).
Proof. induction a as [|x a IH]; simpl; [reflexivity | now rewrite IH]. Qed.

Lemma append_length (a b : string) :
  String.length (a ++ b) = String.length a + String.length b.
Proof. induction a as [|x a IH]; simpl; [reflexivity | now rewrite IH]. Qed.

(** ** The scan in closed form *)

Lemma ExtractDataFromChunk_eq (g : Statics) (c : Chunk) (st : scan_state) :
  ExtractDataFromChunk g c st =
  {| this :=
       {| kind_ := kind_ (this st);
          everything_except_return_type_ :=
            everything_except_return_type_ (this st)
            ++ main_piece g (saw_left_paren st) (saw_function_params st) c;
          doc_string_ := doc_string_ (this st);
          call_string_ :=
            call_string_ (this st)
            ++ call_piece g (saw_left_paren st) (saw_function_params st) c;
          key_string_ := key_string_ (this st);
          brief_ := brief_ (this st);
          detailed_info_ := detailed_info_ (this st);
          return_type_ :=
            if kind_is (Kind c) CXCompletionChunk_ResultType
            then Text c else return_type_ (this st) |};
     saw_left_paren := next_left_paren (saw_left_paren st) (Kind c);
     saw_function_params :=
       next_function_params (saw_left_paren st) (saw_function_params st)
         (Kind c) |}.
Proof.
  destruct st as [d l p]; destruct d; destruct c as [k t n].
  unfold ExtractDataFromChunk, main_piece, call_piece, space_piece,
    emits_space, next_left_paren, next_function_params, ChunkToString,
    AppendExtraSpaceIfNeeded, on_this.
  destruct k, l, p; cbn;
    rewrite ?append_assoc, ?append_nil_r; reflexivity.
Qed.

Lemma scan_eq (g : Statics) (chunks : list Chunk) (st : scan_state) :
  fold_left (fun st chunk => ExtractDataFromChunk g chunk st) chunks st =
  {| this :=
       {| kind_ := kind_ (this st);
          everything_except_return_type_ :=
            everything_except_return_type_ (this st)
            ++ scan_main g (saw_left_paren st) (saw_function_params st) chunks;
          doc_string_ := doc_string_ (this st);
          call_string_ :=
            call_string_ (this st)
            ++ scan_call g (saw_left_paren st) (saw_function_params st) chunks;
          key_string_ := key_string_ (this st);
          brief_ := brief_ (this st);
          detailed_info_ := detailed_info_ (this st);
          return_type_ := scan_return (return_type_ (this st)) chunks |};
     saw_left_paren :=
       fst (paren_after (saw_left_paren st) (saw_function_params st) chunks);
     saw_function_params :=
       snd (paren_after (saw_left_paren st) (saw_function_params st) chunks) |}.
Proof.
  revert st; induction chunks as [|c rest IH]; intros st.
  - destruct st as [d l p]; destruct d; simpl.
    now rewrite !append_nil_r.
  - simpl fold_left. rewrite IH, ExtractDataFromChunk_eq. simpl.
    now rewrite !append_assoc.
Qed.

(** The detailed-info text of the constructor. *)
Lemma ctor_eq (g : Statics) (k : CompletionKind) (ck : CXCursorKind)
    (chunks : list Chunk) (b : string) :
  CompletionData_ctor g k
    {| CursorKind := ck;
       CompletionString := Some {| Chunks := chunks; BriefComment := b |} |} =
  let main :=
    RemoveParameterMarkers
      (RemoveTwoConsecutiveUnderscores (scan_main g false false chunks)) in
  let call := RemoveTwoConsecutiveUnderscores (scan_call g false false chunks) in
  let ret := scan_return "" chunks in
  {| kind_ := CursorKindToCompletionKind ck;
     everything_except_return_type_ := main;
     doc_string_ := b;
     call_string_ := call;
     key_string_ := regex_replace (RemoveParameterMarkers call) cv_re;
     brief_ := b;
     detailed_info_ :=
       (if is_empty b then "" else b ++ newline)
       ++ ret ++ " " ++ main ++ newline;
     return_type_ := ret |}.
Proof.
  unfold CompletionData_ctor. cbn [CompletionString Chunks BriefComment CursorKind].
  rewrite scan_eq. cbn.
  destruct b as [|x b]; cbn -[RemoveParameterMarkers RemoveTwoConsecutiveUnderscores
                               regex_replace];
    rewrite ?append_assoc; reflexivity.
Qed.

Lemma scan_main_app (g : Statics) (pre post : list Chunk) (l p : bool) :
  scan_main g l p (pre ++ post) =
  scan_main g l p pre
  ++ scan_main g (fst (paren_after l p pre)) (snd (paren_after l p pre)) post.
Proof.
  revert l p; induction pre as [|c pre IH]; intros l p; simpl.
  - reflexivity.
  - now rewrite IH, append_assoc.
Qed.

Lemma scan_call_app (g : Statics) (pre post : list Chunk) (l p : bool) :
  scan_call g l p (pre ++ post) =
  scan_call g l p pre
  ++ scan_call g (fst (paren_after l p pre)) (snd (paren_after l p pre)) post.
Proof.
  revert l p; induction pre as [|c pre IH]; intros l p; simpl.
  - reflexivity.
  - now rewrite IH, append_assoc.
Qed.

Lemma scan_return_app (r : string) (pre post : list Chunk) :
  scan_return r (pre ++ post) = scan_return (scan_return r pre) post.
Proof.
  revert r; induction pre as [|c pre IH]; intros r; simpl; [reflexivity | apply IH].
Qed.

(** ** Degenerate inputs *)

(** C1, as stated, fails: an empty chunk sequence under a function cursor
    gives a record whose detailed info is a space and a newline and whose
    kind is FUNCTION. *)
Lemma C1_empty_sequence_is_not_blank :
  ~ (forall (g : Statics) (k : CompletionKind) (r : CXCompletionResult),
        no_chunks r ->
        all_strings_empty (CompletionData_ctor g k r)
        /\ kind_ (CompletionData_ctor g k r) = UNKNOWN).
Proof.
  intros H.
  destruct (H initial_statics UNKNOWN (result_of CXCursor_FunctionDecl [] "")
              eq_refl) as [_ Hk].
  discriminate Hk.
Qed.

(** C1, amended: on a null chunk sequence the constructor returns at once:
    every string member is empty and [kind_] is not assigned.  On an empty
    chunk sequence the call string, main text, return type and key string are
    empty, [brief_] and [doc_string_] hold the brief comment, the detailed
    info is a space and a newline (after the brief comment and a newline when
    there is one), and [kind_] is the completion kind of the cursor kind. *)
Theorem C1_degenerate_inputs (g : Statics) (k : CompletionKind)
    (ck : CXCursorKind) (b : string) :
  CompletionData_ctor g k (null_result ck) = default_initialized k
  /\ CompletionData_ctor g k (result_of ck [] b) =
     {| kind_ := CursorKindToCompletionKind ck;
        everything_except_return_type_ := "";
        doc_string_ := b;
        call_string_ := "";
        key_string_ := "";
        brief_ := b;
        detailed_info_ :=
          (if is_empty b then "" else b ++ newline) ++ " " ++ newline;
        return_type_ := "" |}.
Proof.
  split; [reflexivity|].
  unfold result_of. rewrite ctor_eq. reflexivity.
Qed.

(** ** The paren state machine on the spec's examples *)

(** C4: with the extra space disabled (the initial state, or after
    [DisableExtraSpace]) the sequence TypedText foo, LeftParen, TypedText
    "int x", RightParen builds the main text foo(int x); with the extra space
    enabled it builds foo( int x ); the sequence TypedText foo, LeftParen,
    RightParen builds foo() in both states. *)
Theorem C4_paren_spacing (g : Statics) (k : CompletionKind) (ck : CXCursorKind)
    (b : string) :
  let foo_int_x :=
    [leaf CXCompletionChunk_TypedText "foo"; leaf CXCompletionChunk_LeftParen "(";
     leaf CXCompletionChunk_TypedText "int x";
     leaf CXCompletionChunk_RightParen ")"] in
  let foo_empty :=
    [leaf CXCompletionChunk_TypedText "foo"; leaf CXCompletionChunk_LeftParen "(";
     leaf CXCompletionChunk_RightParen ")"] in
  MainCompletionText
    (CompletionData_ctor initial_statics k (result_of ck foo_int_x b))
  = "foo(int x)"
  /\ MainCompletionText
       (CompletionData_ctor (DisableExtraSpace g) k (result_of ck foo_int_x b))
     = "foo(int x)"
  /\ MainCompletionText
       (CompletionData_ctor (EnableExtraSpace g) k (result_of ck foo_int_x b))
     = "foo( int x )"
  /\ MainCompletionText
       (CompletionData_ctor (DisableExtraSpace g) k (result_of ck foo_empty b))
     = "foo()"
  /\ MainCompletionText
       (CompletionData_ctor (EnableExtraSpace g) k (result_of ck foo_empty b))
     = "foo()".
Proof.
  unfold MainCompletionText, result_of; cbv zeta.
  rewrite !ctor_eq. cbv zeta.
  cbn [everything_except_return_type_].
  repeat split; vm_compute; reflexivity.
Qed.

(** ** operator== *)

Lemma CompletionKind_eqb_eq (a b : CompletionKind) :
  CompletionKind_eqb a b = true <-> a = b.
Proof.
  unfold CompletionKind_eqb.
  destruct (CompletionKind_eq_dec a b); split; intros; congruence.
Qed.

(** C8: two records compare equal exactly when their kind, main text and
    return type agree; the five other members never matter. *)
Theorem C8_equality_reads_three_members (a b : CompletionData) :
  (CompletionData_eq a b = true <->
   kind_ a = kind_ b
   /\ everything_except_return_type_ a = everything_except_return_type_ b
   /\ return_type_ a = return_type_ b)
  /\ (forall doc call key brief detailed : string,
         CompletionData_eq a
           {| kind_ := kind_ a;
              everything_except_return_type_ :=
                everything_except_return_type_ a;
              doc_string_ := doc;
              call_string_ := call;
              key_string_ := key;
              brief_ := brief;
              detailed_info_ := detailed;
              return_type_ := return_type_ a |} = true).
Proof.
  unfold CompletionData_eq. split.
  - rewrite !andb_true_iff, CompletionKind_eqb_eq, !String.eqb_eq. tauto.
  - intros. cbn.
    rewrite !andb_true_iff, CompletionKind_eqb_eq, !String.eqb_eq. tauto.
Qed.

Lemma C8_equality_reads_three_members_witness :
  CompletionData_eq
    (CompletionData_ctor initial_statics UNKNOWN
       (result_of CXCursor_VarDecl [leaf CXCompletionChunk_TypedText "x"] "one"))
    (CompletionData_ctor initial_statics UNKNOWN
       (result_of CXCursor_VarDecl [leaf CXCompletionChunk_TypedText "x"] "two"))
  = true.
Proof.
  apply (proj1 (C8_equality_reads_three_members _ _)).
  repeat split; reflexivity.
Defined.

(** ** Rendering an Optional chunk *)

Lemma join_app (l1 l2 : list string) : join (l1 ++ l2) = join l1 ++ join l2.
Proof.
  induction l1 as [|x l1 IH]; cbn; [reflexivity|].
  fold (join (l1 ++ l2)); fold (join l1). now rewrite IH, append_assoc.
Qed.

Lemma join_map_insert {A : Type} (f : A -> string) (l1 : list A) (x : A)
    (l2 : list A) :
  join (map f (l1 ++ x :: l2)) = join (map f l1) ++ f x ++ join (map f l2).
Proof. rewrite map_app, join_app. reflexivity. Qed.

Lemma fold_left_nested_piece (l : list Chunk) (acc : string) :
  fold_left
    (fun final_string c =>
       if kind_is (Kind c) CXCompletionChunk_Optional
       then final_string ++ OptionalChunkToString c
       else final_string ++ ChunkToString c nested_open nested_close)
    l acc
  = acc ++ join (map nested_piece l).
Proof.
  revert acc; induction l as [|c l IH]; intros acc; cbn [fold_left map].
  - cbn. now rewrite append_nil_r.
  - rewrite IH. unfold join at 2. cbn [fold_right]. fold (join (map nested_piece l)).
    unfold nested_piece at 2.
    destruct (kind_is (Kind c) CXCompletionChunk_Optional);
      now rewrite append_assoc.
Qed.

Lemma OptionalChunkToString_eq (c : Chunk) :
  OptionalChunkToString c =
  match Nested c with
  | None => ""
  | Some l => join (map nested_piece l)
  end.
Proof.
  destruct c as [k t [l|]]; [|reflexivity].
  exact (fold_left_nested_piece l "").
Qed.

Lemma OptionalChunkToString_leaves (c : Chunk) :
  OptionalChunkToString c =
  join (map (fun x => ChunkToString x nested_open nested_close)
          (optional_leaves c)).
Proof.
  induction c as [k t n IH] using Chunk_nested_ind.
  rewrite OptionalChunkToString_eq. destruct n as [l|]; [|reflexivity].
  cbn [Nested optional_leaves].
  induction l as [|x l IHl]; [reflexivity|].
  inversion IH as [|? ? Hx Hl]; subst.
  cbn [map flat_map]. rewrite map_app, join_app.
  unfold join at 1. cbn [fold_right]. fold (join (map nested_piece l)).
  rewrite (IHl Hl). f_equal.
  unfold nested_piece.
  destruct (kind_is (Kind x) CXCompletionChunk_Optional).
  - exact Hx.
  - cbn. now rewrite append_nil_r.
Qed.

(** ** Chunks that leave an accumulator alone *)

Lemma scan_main_insert (g : Statics) (pre : list Chunk) (c : Chunk)
    (post : list Chunk) (l p : bool) :
  scan_main g l p (pre ++ c :: post) =
  scan_main g l p pre
  ++ main_piece g (fst (paren_after l p pre)) (snd (paren_after l p pre)) c
  ++ scan_main g
       (next_left_paren (fst (paren_after l p pre)) (Kind c))
       (next_function_params (fst (paren_after l p pre))
          (snd (paren_after l p pre)) (Kind c))
       post.
Proof. now rewrite scan_main_app. Qed.

Lemma scan_call_insert (g : Statics) (pre : list Chunk) (c : Chunk)
    (post : list Chunk) (l p : bool) :
  scan_call g l p (pre ++ c :: post) =
  scan_call g l p pre
  ++ call_piece g (fst (paren_after l p pre)) (snd (paren_after l p pre)) c
  ++ scan_call g
       (next_left_paren (fst (paren_after l p pre)) (Kind c))
       (next_function_params (fst (paren_after l p pre))
          (snd (paren_after l p pre)) (Kind c))
       post.
Proof. now rewrite scan_call_app. Qed.

(** A chunk whose kind is neither display text nor LeftParen keeps the paren
    state. *)
Lemma paren_state_kept (l p : bool) (kind : CXCompletionChunkKind) :
  IsMainCompletionTextInfo kind = false
  \/ kind = CXCompletionChunk_Informative ->
  next_left_paren l kind = l /\ next_function_params l p kind = p.
Proof.
  intros [H| ->].
  - unfold next_left_paren, next_function_params. rewrite H.
    destruct kind; try discriminate H; now cbn.
  - unfold next_left_paren, next_function_params; cbn.
    now rewrite !andb_false_r.
Qed.

Lemma scan_return_last (r t : string) (n : option (list Chunk))
    (post : list Chunk) :
  Forall (fun c => Kind c <> CXCompletionChunk_ResultType) post ->
  scan_return r (mkChunk CXCompletionChunk_ResultType t n :: post) = t.
Proof.
  cbn. generalize t. clear r t.
  induction post as [|c post IH]; intros t H; cbn; [reflexivity|].
  inversion H as [|? ? Hc Hpost]; subst.
  unfold kind_is. destruct (chunk_kind_eq_dec (Kind c) CXCompletionChunk_ResultType);
    [contradiction | now apply IH].
Qed.

(** ** Return type and detailed info *)

(** C9, as stated, fails on the null chunk sequence: the constructor returns
    before it assembles the detailed info, which stays empty instead of
    holding a space and a newline. *)
Lemma C9_null_sequence_has_no_detailed_info :
  ~ (forall (g : Statics) (k : CompletionKind) (r : CXCompletionResult),
        let d := CompletionData_ctor g k r in
        detailed_info_ d =
        if is_empty (brief_ d)
        then return_type_ d ++ " " ++ everything_except_return_type_ d
               ++ newline
        else brief_ d ++ newline ++ return_type_ d ++ " "
               ++ everything_except_return_type_ d ++ newline).
Proof.
  intros H.
  specialize (H initial_statics UNKNOWN (null_result CXCursor_FunctionDecl)).
  cbv zeta in H. change (CompletionData_ctor initial_statics UNKNOWN
                           (null_result CXCursor_FunctionDecl))
    with (default_initialized UNKNOWN) in H.
  cbn in H. discriminate H.
Qed.

(** C9, amended: a ResultType chunk of the sequence itself only assigns
    [return_type_]; dropping it from the sequence changes neither the main
    text nor the call string nor the key; the last ResultType chunk of the
    sequence gives the record's return type; on a completion string that is
    not null the detailed info is the brief comment and a newline (when
    there is a brief comment), then return type, space, main text, newline;
    on the null completion string the detailed info and the return type are
    empty.  A ResultType chunk nested in an Optional chunk is rendered as its
    text, and the Optional chunk leaves [return_type_] alone. *)
Theorem C9_result_type_and_detailed_info (g : Statics) (k : CompletionKind)
    (ck : CXCursorKind) (b : string) :
  (forall (t : string) (n : option (list Chunk)) (st : scan_state),
      ExtractDataFromChunk g (mkChunk CXCompletionChunk_ResultType t n) st
      = on_this (set_return_type t) st)
  /\ (forall (pre post : list Chunk) (t : string) (n : option (list Chunk)),
         let c := mkChunk CXCompletionChunk_ResultType t n in
         let d := CompletionData_ctor g k (result_of ck (pre ++ c :: post) b) in
         let d' := CompletionData_ctor g k (result_of ck (pre ++ post) b) in
         everything_except_return_type_ d = everything_except_return_type_ d'
         /\ call_string_ d = call_string_ d'
         /\ key_string_ d = key_string_ d'
         /\ (Forall (fun c' => Kind c' <> CXCompletionChunk_ResultType) post ->
             return_type_ d = t))
  /\ (forall chunks : list Chunk,
         let d := CompletionData_ctor g k (result_of ck chunks b) in
         brief_ d = b
         /\ detailed_info_ d =
            if is_empty (brief_ d)
            then return_type_ d ++ " " ++ everything_except_return_type_ d
                   ++ newline
            else brief_ d ++ newline ++ return_type_ d ++ " "
                   ++ everything_except_return_type_ d ++ newline)
  /\ (let d :=
        CompletionData_ctor g k
          (result_of ck [leaf CXCompletionChunk_ResultType "int";
                         leaf CXCompletionChunk_TypedText "foo"] "") in
      return_type_ d = "int" /\ detailed_info_ d = "int foo" ++ newline)
  /\ (detailed_info_ (CompletionData_ctor g k (null_result ck)) = ""
      /\ return_type_ (CompletionData_ctor g k (null_result ck)) = "")
  /\ (forall (k0 : CXCompletionChunkKind) (t0 t : string)
             (n : option (list Chunk)) (before after : list Chunk),
         OptionalChunkToString
           (mkChunk k0 t0
              (Some (before ++ mkChunk CXCompletionChunk_ResultType t n
                     :: after)%list))
         = OptionalChunkToString (mkChunk k0 t0 (Some before)) ++ t
           ++ OptionalChunkToString (mkChunk k0 t0 (Some after)))
  /\ (forall (t : string) (n : option (list Chunk)) (st : scan_state),
         return_type_
           (this (ExtractDataFromChunk g
                    (mkChunk CXCompletionChunk_Optional t n) st))
         = return_type_ (this st)).
Proof.
  split; [|split; [|split; [|split; [|split; [|split]]]]].
  - intros t n [d l p]. reflexivity.
  - intros pre post t n c d d'. subst d d'. unfold result_of.
    rewrite !ctor_eq. cbv zeta.
    cbn [everything_except_return_type_ call_string_ key_string_ return_type_].
    rewrite scan_main_insert, scan_call_insert, scan_main_app, scan_call_app.
    destruct (paren_state_kept (fst (paren_after false false pre))
                (snd (paren_after false false pre)) (Kind c)) as [-> ->];
      [left; reflexivity|].
    assert (Hm : forall l p, main_piece g l p c = "") by reflexivity.
    assert (Hc : forall l p, call_piece g l p c = "") by reflexivity.
    rewrite Hm, Hc. cbn [append].
    repeat split.
    intros Hpost. rewrite scan_return_app. now apply scan_return_last.
  - intros chunks d. subst d. unfold result_of. rewrite ctor_eq. cbv zeta.
    cbn [brief_ detailed_info_ return_type_ everything_except_return_type_].
    split; [reflexivity|].
    destruct (is_empty b); [reflexivity | now rewrite append_assoc].
  - unfold result_of. rewrite ctor_eq. cbv zeta.
    cbn [return_type_ detailed_info_]. split; vm_compute; reflexivity.
  - split; reflexivity.
  - intros k0 t0 t n before after.
    rewrite !OptionalChunkToString_eq. cbn [Nested].
    now rewrite join_map_insert.
  - intros t n st. rewrite ExtractDataFromChunk_eq. reflexivity.
Qed.

Lemma C9_result_type_and_detailed_info_witness :
  Forall (fun c' => Kind c' <> CXCompletionChunk_ResultType)
    [leaf CXCompletionChunk_TypedText "size"]
  /\ return_type_
       (CompletionData_ctor initial_statics UNKNOWN
          (result_of CXCursor_CXXMethod
             ([leaf CXCompletionChunk_ResultType "int"]
              ++ leaf CXCompletionChunk_ResultType "size_t"
              :: [leaf CXCompletionChunk_TypedText "size"]) ""))
     = "size_t".
Proof.
  assert (H : Forall (fun c' => Kind c' <> CXCompletionChunk_ResultType)
                [leaf CXCompletionChunk_TypedText "size"]).
  { constructor; [discriminate | constructor]. }
  split; [exact H|].
  exact (proj2 (proj2 (proj2 (proj1 (proj2
    (C9_result_type_and_detailed_info initial_statics UNKNOWN
       CXCursor_CXXMethod ""))
    [leaf CXCompletionChunk_ResultType "int"]
    [leaf CXCompletionChunk_TypedText "size"] "size_t" None))) H).
Defined.

(** ** The extra space *)

(** C10: the extra space goes onto the call string and the main text, and
    onto nothing else; whenever the paren state machine emits it with the
    flag enabled, both accumulators get the space and then the chunk's text;
    so the call string of foo(int x) has the two spaces as well. *)
Theorem C10_extra_space_on_both_accumulators (g : Statics) :
  (forall d : CompletionData,
      AppendExtraSpaceIfNeeded (EnableExtraSpace g) d =
      {| kind_ := kind_ d;
         everything_except_return_type_ :=
           everything_except_return_type_ d ++ " ";
         doc_string_ := doc_string_ d;
         call_string_ := call_string_ d ++ " ";
         key_string_ := key_string_ d;
         brief_ := brief_ d;
         detailed_info_ := detailed_info_ d;
         return_type_ := return_type_ d |})
  /\ (forall (c : Chunk) (st : scan_state),
         emits_space (saw_left_paren st) (saw_function_params st) (Kind c)
         = true ->
         let d := this st in
         let d' := this (ExtractDataFromChunk (EnableExtraSpace g) c st) in
         let text :=
           if kind_is (Kind c) CXCompletionChunk_Optional
           then OptionalChunkToString c
           else ChunkToString c top_open top_close in
         everything_except_return_type_ d'
         = (everything_except_return_type_ d ++ " ") ++ text
         /\ call_string_ d' = (call_string_ d ++ " ") ++ text
         /\ kind_ d' = kind_ d
         /\ doc_string_ d' = doc_string_ d
         /\ key_string_ d' = key_string_ d
         /\ brief_ d' = brief_ d
         /\ detailed_info_ d' = detailed_info_ d
         /\ return_type_ d' = return_type_ d)
  /\ (forall (k : CompletionKind) (ck : CXCursorKind) (b : string),
         TextToInsertInBuffer
           (CompletionData_ctor (EnableExtraSpace g) k
              (result_of ck
                 [leaf CXCompletionChunk_TypedText "foo";
                  leaf CXCompletionChunk_LeftParen "(";
                  leaf CXCompletionChunk_TypedText "int x";
                  leaf CXCompletionChunk_RightParen ")"] b))
         = "foo( int x )").
Proof.
  split; [|split].
  - intros d. reflexivity.
  - intros c st H d d' text. subst d d' text.
    rewrite ExtractDataFromChunk_eq.
    cbn [this everything_except_return_type_ call_string_ kind_ doc_string_
         key_string_ brief_ detailed_info_ return_type_].
    unfold main_piece, call_piece, space_piece. rewrite H.
    destruct st as [d l p], c as [kind t n].
    cbn [Kind saw_left_paren saw_function_params this] in *.
    destruct kind, l, p; try discriminate H; cbn;
      rewrite ?append_assoc; repeat split.
  - intros k ck b. unfold TextToInsertInBuffer, result_of.
    rewrite ctor_eq. cbv zeta. cbn [call_string_]. vm_compute. reflexivity.
Qed.

Lemma C10_extra_space_on_both_accumulators_witness :
  let st :=
    {| this := default_initialized UNKNOWN;
       saw_left_paren := true;
       saw_function_params := false |} in
  let c := leaf CXCompletionChunk_Placeholder "int x" in
  emits_space (saw_left_paren st) (saw_function_params st) (Kind c) = true
  /\ call_string_
       (this (ExtractDataFromChunk (EnableExtraSpace initial_statics) c st))
     = ("" ++ " ") ++ ChunkToString c top_open top_close.
Proof.
  intros st c. split; [reflexivity|].
  exact (proj1 (proj2 (proj1 (proj2
    (C10_extra_space_on_both_accumulators initial_statics)) c st eq_refl))).
Defined.

(** ** Malformed chunks *)

Lemma space_piece_disabled (g : Statics) (l p : bool)
    (kind : CXCompletionChunkKind) :
  extra_space_ g = "" -> space_piece g l p kind = "".
Proof.
  intros Hg. unfold space_piece. rewrite Hg.
  now destruct (emits_space l p kind).
Qed.

(** Without the extra space the paren state has no effect on the text. *)
Lemma scan_main_no_space (g : Statics) (chunks : list Chunk) (l p l' p' : bool) :
  extra_space_ g = "" ->
  scan_main g l p chunks = scan_main g l' p' chunks.
Proof.
  intros Hg. revert l p l' p'.
  induction chunks as [|c rest IH]; intros l p l' p'; cbn; [reflexivity|].
  assert (Hp : main_piece g l p c = main_piece g l' p' c).
  { unfold main_piece. now rewrite !(space_piece_disabled g _ _ _ Hg). }
  rewrite Hp. f_equal. apply IH.
Qed.

Lemma scan_call_no_space (g : Statics) (chunks : list Chunk) (l p l' p' : bool) :
  extra_space_ g = "" ->
  scan_call g l p chunks = scan_call g l' p' chunks.
Proof.
  intros Hg. revert l p l' p'.
  induction chunks as [|c rest IH]; intros l p l' p'; cbn; [reflexivity|].
  assert (Hp : call_piece g l p c = call_piece g l' p' c).
  { unfold call_piece. now rewrite !(space_piece_disabled g _ _ _ Hg). }
  rewrite Hp. f_equal. apply IH.
Qed.

(** C7, as stated, fails: with the extra space enabled, an Optional chunk
    without a nested completion string, placed after the left paren, starts
    the parameter list. *)
Lemma C7_null_optional_starts_the_parameters :
  ~ (forall (g : Statics) (k : CompletionKind) (ck : CXCursorKind) (b : string)
            (pre post : list Chunk) (c : Chunk),
        malformed c ->
        CompletionData_ctor g k (result_of ck (pre ++ c :: post) b)
        = CompletionData_ctor g k (result_of ck (pre ++ post) b)).
Proof.
  intros H.
  specialize (H (EnableExtraSpace initial_statics) UNKNOWN CXCursor_FunctionDecl
                ""
                [leaf CXCompletionChunk_TypedText "foo";
                 leaf CXCompletionChunk_LeftParen "("]
                [leaf CXCompletionChunk_RightParen ")"]
                (leaf CXCompletionChunk_Optional "")
                (or_intror (conj eq_refl eq_refl))).
  apply (f_equal everything_except_return_type_) in H.
  vm_compute in H. discriminate H.
Qed.

(** C7, amended: a chunk of the sequence itself whose kind is outside the
    enumeration is a no-op: the record is the one built without it.  An
    Optional chunk of the sequence itself without a nested completion string
    adds no text of its own and never ends the scan; the record is the one
    built without it when the extra space is disabled, or when the chunk does
    not stand between a left paren and the first parameter.  Inside the
    nested completion string of an Optional chunk a chunk whose kind is
    outside the enumeration is no no-op: it is rendered as its text. *)
Theorem C7_malformed_chunk_is_skipped (g : Statics) (k : CompletionKind)
    (ck : CXCursorKind) (b : string) (pre post : list Chunk) :
  (forall (t : string) (n : option (list Chunk)),
      CompletionData_ctor g k
        (result_of ck (pre ++ mkChunk CXCompletionChunk_Invalid t n :: post) b)
      = CompletionData_ctor g k (result_of ck (pre ++ post) b))
  /\ (forall t : string,
         extra_space_ g = ""
         \/ paren_after false false pre <> (true, false) ->
         CompletionData_ctor g k
           (result_of ck
              (pre ++ mkChunk CXCompletionChunk_Optional t None :: post) b)
         = CompletionData_ctor g k (result_of ck (pre ++ post) b))
  /\ (forall (k0 : CXCompletionChunkKind) (t0 t : string)
             (n : option (list Chunk)) (before after : list Chunk),
         OptionalChunkToString
           (mkChunk k0 t0
              (Some (before ++ mkChunk CXCompletionChunk_Invalid t n
                     :: after)%list))
         = OptionalChunkToString (mkChunk k0 t0 (Some before)) ++ t
           ++ OptionalChunkToString (mkChunk k0 t0 (Some after))).
Proof.
  split; [|split];
    [| |intros k0 t0 t n before after;
        rewrite !OptionalChunkToString_eq; cbn [Nested];
        now rewrite join_map_insert].
  - intros t n. unfold result_of. rewrite !ctor_eq. cbv zeta.
    rewrite scan_main_insert, scan_call_insert, scan_main_app, scan_call_app,
      !scan_return_app.
    reflexivity.
  - intros t H. unfold result_of. rewrite !ctor_eq. cbv zeta.
    rewrite scan_main_insert, scan_call_insert, scan_main_app, scan_call_app,
      !scan_return_app.
    set (c := mkChunk CXCompletionChunk_Optional t None).
    change (scan_return (scan_return "" pre) (c :: post))
      with (scan_return (scan_return "" pre) post).
    assert (E :
      main_piece g (fst (paren_after false false pre))
        (snd (paren_after false false pre)) c
      ++ scan_main g
           (next_left_paren (fst (paren_after false false pre)) (Kind c))
           (next_function_params (fst (paren_after false false pre))
              (snd (paren_after false false pre)) (Kind c)) post
      = scan_main g (fst (paren_after false false pre))
          (snd (paren_after false false pre)) post
      /\ call_piece g (fst (paren_after false false pre))
           (snd (paren_after false false pre)) c
         ++ scan_call g
              (next_left_paren (fst (paren_after false false pre)) (Kind c))
              (next_function_params (fst (paren_after false false pre))
                 (snd (paren_after false false pre)) (Kind c)) post
         = scan_call g (fst (paren_after false false pre))
             (snd (paren_after false false pre)) post).
    { destruct H as [Hg|Hs].
      - unfold main_piece, call_piece.
        rewrite !(space_piece_disabled g _ _ _ Hg). cbn.
        split; [apply scan_main_no_space | apply scan_call_no_space];
          exact Hg.
      - destruct (paren_after false false pre) as [l p].
        destruct l, p; try (exfalso; apply Hs; reflexivity);
          cbn; split; reflexivity. }
    destruct E as [-> ->]. reflexivity.
Qed.

Lemma C7_malformed_chunk_is_skipped_witness :
  let pre := [leaf CXCompletionChunk_TypedText "foo"] in
  let post := [leaf CXCompletionChunk_LeftParen "(";
               leaf CXCompletionChunk_RightParen ")"] in
  (extra_space_ (EnableExtraSpace initial_statics) = ""
   \/ paren_after false false pre <> (true, false))
  /\ CompletionData_ctor (EnableExtraSpace initial_statics) UNKNOWN
       (result_of CXCursor_FunctionDecl
          (pre ++ mkChunk CXCompletionChunk_Optional "" None :: post) "")
     = CompletionData_ctor (EnableExtraSpace initial_statics) UNKNOWN
         (result_of CXCursor_FunctionDecl (pre ++ post) "").
Proof.
  intros pre post.
  assert (H : extra_space_ (EnableExtraSpace initial_statics) = ""
              \/ paren_after false false pre <> (true, false)).
  { right. cbn. discriminate. }
  split; [exact H|].
  exact (proj1 (proj2 (C7_malformed_chunk_is_skipped
                         (EnableExtraSpace initial_statics)
                         UNKNOWN CXCursor_FunctionDecl "" pre post)) "" H).
Defined.

(** ** Erasing the double underscores *)

Lemma string_ind2 (P : string -> Prop) :
  P "" ->
  (forall c, P (String c "")) ->
  (forall c1 c2 s, P s -> P (String c2 s) -> P (String c1 (String c2 s))) ->
  forall s, P s.
Proof.
  intros H0 H1 H2 s.
  assert (H : P s /\ forall c, P (String c s)).
  { induction s as [|c s [IHs IHc]]; split; auto. }
  apply H.
Qed.

Lemma erase_underscores_pair (r : string) :
  RemoveTwoConsecutiveUnderscores (String "_" (String "_" r))
  = RemoveTwoConsecutiveUnderscores r.
Proof. reflexivity. Qed.

Lemma erase_underscores_other (c : ascii) (r : string) :
  c <> "_"%char ->
  RemoveTwoConsecutiveUnderscores (String c r)
  = String c (RemoveTwoConsecutiveUnderscores r).
Proof.
  intros Hc. unfold RemoveTwoConsecutiveUnderscores, erase_all.
  cbn [erase_from starts_with].
  destruct (Ascii.eqb_spec "_" c) as [E|_]; [congruence | reflexivity].
Qed.

Lemma erase_underscores_single (c : ascii) (r : string) :
  c <> "_"%char ->
  RemoveTwoConsecutiveUnderscores (String "_" (String c r))
  = String "_" (RemoveTwoConsecutiveUnderscores (String c r)).
Proof.
  intros Hc. unfold RemoveTwoConsecutiveUnderscores, erase_all.
  cbn [erase_from starts_with].
  destruct (Ascii.eqb_spec "_" c) as [E|_]; [congruence|].
  cbn. reflexivity.
Qed.

(** The pass never joins text across a byte that is not an underscore. *)
Lemma erase_underscores_split (a : string) (x : ascii) (b : string) :
  x <> "_"%char ->
  RemoveTwoConsecutiveUnderscores (a ++ String x b)
  = RemoveTwoConsecutiveUnderscores a
    ++ String x (RemoveTwoConsecutiveUnderscores b).
Proof.
  intros Hx. induction a as [|c|c1 c2 a IH1 IH2] using string_ind2.
  - cbn [append]. now apply erase_underscores_other.
  - cbn [append].
    destruct (ascii_dec c "_") as [->|Hc].
    + rewrite erase_underscores_single by exact Hx.
      now rewrite erase_underscores_other by exact Hx.
    + rewrite !(erase_underscores_other c) by exact Hc.
      now rewrite erase_underscores_other by exact Hx.
  - cbn [append] in *.
    destruct (ascii_dec c1 "_") as [->|Hc1].
    + destruct (ascii_dec c2 "_") as [->|Hc2].
      * now rewrite !erase_underscores_pair.
      * rewrite !(erase_underscores_single c2) by exact Hc2.
        rewrite IH2. reflexivity.
    + rewrite !(erase_underscores_other c1) by exact Hc1.
      rewrite IH2. reflexivity.
Qed.

Lemma erase_underscores_plain (m y : string) :
  string_forallb not_underscore m = true ->
  RemoveTwoConsecutiveUnderscores (m ++ y)
  = m ++ RemoveTwoConsecutiveUnderscores y.
Proof.
  induction m as [|c m IH]; cbn [append string_forallb]; [reflexivity|].
  intros H. apply andb_true_iff in H as [Hc Hm].
  rewrite erase_underscores_other, IH; auto.
  unfold not_underscore in Hc. apply negb_true_iff in Hc.
  now apply Ascii.eqb_neq in Hc.
Qed.

Lemma erase_underscores_around (x m y : string) :
  string_forallb not_underscore m = true -> m <> "" ->
  RemoveTwoConsecutiveUnderscores (x ++ m ++ y)
  = RemoveTwoConsecutiveUnderscores x ++ m
    ++ RemoveTwoConsecutiveUnderscores y.
Proof.
  destruct m as [|c m]; [congruence|]. intros H _.
  cbn [append string_forallb] in *. apply andb_true_iff in H as [Hc Hm].
  rewrite erase_underscores_split, erase_underscores_plain; auto.
  unfold not_underscore in Hc. apply negb_true_iff in Hc.
  now apply Ascii.eqb_neq in Hc.
Qed.

(** The call string keeps a delimited text in place, delimiters included. *)
Lemma erase_underscores_wrapped (x m1 t m2 y : string) :
  string_forallb not_underscore m1 = true -> m1 <> "" ->
  string_forallb not_underscore m2 = true -> m2 <> "" ->
  RemoveTwoConsecutiveUnderscores (x ++ (m1 ++ t ++ m2) ++ y)
  = RemoveTwoConsecutiveUnderscores x ++ m1
    ++ RemoveTwoConsecutiveUnderscores t ++ m2
    ++ RemoveTwoConsecutiveUnderscores y.
Proof.
  intros H1 N1 H2 N2.
  rewrite !append_assoc.
  rewrite (erase_underscores_around x m1) by assumption.
  now rewrite (erase_underscores_around t m2) by assumption.
Qed.

(** ** Informative chunks *)

(** C2, as stated, fails: the text of an Informative chunk nested in an
    Optional chunk is part of the call string. *)
Lemma C2_nested_informative_reaches_the_call_string :
  call_string_
    (CompletionData_ctor initial_statics UNKNOWN
       (result_of CXCursor_FunctionDecl optional_with_hint "")) = "x"
  /\ call_string_
       (CompletionData_ctor initial_statics UNKNOWN
          (result_of CXCursor_FunctionDecl optional_without_hint "")) = "".
Proof. split; reflexivity. Qed.

(** C2, amended: the text of an Informative chunk of the sequence itself goes
    onto the main text and not onto the call string: the call string and the
    key are those of the sequence without the chunk.  An Optional chunk puts
    one rendered string on both accumulators, and that string holds the text
    of every chunk nested in it, Informative ones included. *)
Theorem C2_informative_text (g : Statics) (k : CompletionKind)
    (ck : CXCursorKind) (b : string) :
  (forall (t : string) (n : option (list Chunk)) (st : scan_state),
      ExtractDataFromChunk g (mkChunk CXCompletionChunk_Informative t n) st
      = on_this
          (fun d => set_everything (everything_except_return_type_ d ++ t) d)
          st)
  /\ (forall (pre post : list Chunk) (t : string) (n : option (list Chunk)),
         let c := mkChunk CXCompletionChunk_Informative t n in
         let d := CompletionData_ctor g k (result_of ck (pre ++ c :: post) b) in
         let d' := CompletionData_ctor g k (result_of ck (pre ++ post) b) in
         call_string_ d = call_string_ d'
         /\ key_string_ d = key_string_ d'
         /\ exists a z : string,
              everything_except_return_type_ d
              = RemoveParameterMarkers
                  (RemoveTwoConsecutiveUnderscores (a ++ t ++ z))
              /\ everything_except_return_type_ d'
                 = RemoveParameterMarkers
                     (RemoveTwoConsecutiveUnderscores (a ++ z)))
  /\ (forall (t : string) (n : option (list Chunk)) (st : scan_state),
         let o := mkChunk CXCompletionChunk_Optional t n in
         let sp :=
           space_piece g (saw_left_paren st) (saw_function_params st)
             CXCompletionChunk_Optional in
         let d' := this (ExtractDataFromChunk g o st) in
         call_string_ d'
         = call_string_ (this st) ++ sp ++ OptionalChunkToString o
         /\ everything_except_return_type_ d'
            = everything_except_return_type_ (this st) ++ sp
              ++ OptionalChunkToString o)
  /\ (forall (t t' : string) (n' : option (list Chunk))
             (before after : list Chunk),
         OptionalChunkToString
           (mkChunk CXCompletionChunk_Optional t
              (Some (before
                     ++ mkChunk CXCompletionChunk_Informative t' n' :: after)%list))
         = OptionalChunkToString
             (mkChunk CXCompletionChunk_Optional t (Some before))
           ++ t'
           ++ OptionalChunkToString
                (mkChunk CXCompletionChunk_Optional t (Some after))).
Proof.
  split; [|split; [|split]].
  - intros t n [d l p]. destruct l, p; reflexivity.
  - intros pre post t n c d d'. subst d d'. unfold result_of.
    rewrite !ctor_eq. cbv zeta.
    cbn [everything_except_return_type_ call_string_ key_string_].
    rewrite scan_main_insert, scan_call_insert, scan_main_app, scan_call_app.
    destruct (paren_state_kept (fst (paren_after false false pre))
                (snd (paren_after false false pre)) (Kind c)) as [-> ->];
      [right; reflexivity|].
    assert (Hc : forall l p, call_piece g l p c = "").
    { intros l p. unfold call_piece, space_piece, emits_space. cbn.
      now rewrite !andb_false_r. }
    assert (Hm : forall l p, main_piece g l p c = t).
    { intros l p. unfold main_piece, space_piece, emits_space. cbn.
      now rewrite !andb_false_r. }
    rewrite Hc, Hm. cbn [append].
    repeat split. eexists _, _. split; reflexivity.
  - intros t n st o sp d'. subst o sp d'.
    rewrite ExtractDataFromChunk_eq. cbn. split; reflexivity.
  - intros t t' n' before after.
    rewrite !OptionalChunkToString_eq. cbn [Nested].
    rewrite map_app, join_app. cbn [map]. unfold join at 2.
    cbn [fold_right]. reflexivity.
Qed.

(** ** The call string keeps its placeholders *)

Lemma call_string_keeps_placeholder (g : Statics) (k : CompletionKind)
    (ck : CXCursorKind) (b : string) (pre post : list Chunk) (t : string)
    (n : option (list Chunk)) :
  exists a z : string,
    call_string_
      (CompletionData_ctor g k
         (result_of ck
            (pre ++ mkChunk CXCompletionChunk_Placeholder t n :: post) b))
    = a ++ "⟪" ++ RemoveTwoConsecutiveUnderscores t ++ "⟫" ++ z.
Proof.
  unfold result_of. rewrite ctor_eq. cbv zeta.
  cbn [call_string_]. rewrite scan_call_insert.
  set (A := scan_call g false false pre).
  set (Z := scan_call g _ _ post).
  set (l := fst _). set (p := snd _).
  change (call_piece g l p (mkChunk CXCompletionChunk_Placeholder t n))
    with (space_piece g l p CXCompletionChunk_Placeholder
          ++ "⟪" ++ t ++ "⟫").
  set (sp := space_piece g _ _ _).
  replace (A ++ (sp ++ "⟪" ++ t ++ "⟫") ++ Z)
    with ((A ++ sp) ++ ("⟪" ++ t ++ "⟫") ++ Z)
    by (now rewrite !append_assoc).
  rewrite erase_underscores_wrapped by (reflexivity || discriminate).
  eexists _, _. reflexivity.
Qed.

Lemma call_string_keeps_nested_placeholder (g : Statics) (k : CompletionKind)
    (ck : CXCursorKind) (b : string) (pre post : list Chunk) (o x : Chunk) :
  Kind o = CXCompletionChunk_Optional ->
  In x (optional_leaves o) ->
  Kind x = CXCompletionChunk_Placeholder ->
  exists a z : string,
    call_string_
      (CompletionData_ctor g k (result_of ck (pre ++ o :: post) b))
    = a ++ "⟦" ++ RemoveTwoConsecutiveUnderscores (Text x) ++ "⟧" ++ z.
Proof.
  intros Ho Hin Hx. unfold result_of. rewrite ctor_eq. cbv zeta.
  cbn [call_string_]. rewrite scan_call_insert.
  set (A := scan_call g false false pre).
  set (Z := scan_call g _ _ post).
  set (l := fst _). set (p := snd _).
  assert (E : call_piece g l p o
              = space_piece g l p CXCompletionChunk_Optional
                ++ OptionalChunkToString o).
  { unfold call_piece. now rewrite Ho. }
  rewrite E. clear E.
  set (sp := space_piece g _ _ _).
  rewrite OptionalChunkToString_leaves.
  destruct (in_split _ _ Hin) as [l1 [l2 ->]].
  rewrite join_map_insert.
  set (J1 := join (map _ l1)). set (J2 := join (map _ l2)).
  assert (E : ChunkToString x nested_open nested_close
              = "⟦" ++ Text x ++ "⟧").
  { unfold ChunkToString. now rewrite Hx. }
  rewrite E. clear E.
  replace (A ++ (sp ++ J1 ++ ("⟦" ++ Text x ++ "⟧") ++ J2) ++ Z)
    with ((A ++ sp ++ J1) ++ ("⟦" ++ Text x ++ "⟧") ++ J2 ++ Z)
    by (now rewrite !append_assoc).
  rewrite erase_underscores_wrapped by (reflexivity || discriminate).
  eexists _, _. reflexivity.
Qed.

(** ** Placeholder delimiters *)

(** C6: an Optional chunk renders as the concatenation of its descendants,
    each through [ChunkToString] with the delimiters ⟦ and ⟧, so a
    Placeholder below an Optional chunk, at any depth, is wrapped in ⟦ and ⟧;
    a Placeholder of the sequence itself is wrapped in ⟪ and ⟫; and the call
    string of the record keeps both kinds of wrapping. *)
Theorem C6_placeholder_delimiters (g : Statics) (k : CompletionKind)
    (ck : CXCursorKind) (b : string) :
  (forall o : Chunk,
      OptionalChunkToString o
      = join (map (fun x => ChunkToString x "⟦" "⟧") (optional_leaves o)))
  /\ (forall (t : string) (n : option (list Chunk)),
         ChunkToString (mkChunk CXCompletionChunk_Placeholder t n) "⟦" "⟧"
         = "⟦" ++ t ++ "⟧")
  /\ (forall (t : string) (n : option (list Chunk)) (st : scan_state),
         let c := mkChunk CXCompletionChunk_Placeholder t n in
         let sp :=
           space_piece g (saw_left_paren st) (saw_function_params st)
             CXCompletionChunk_Placeholder in
         let d' := this (ExtractDataFromChunk g c st) in
         call_string_ d' = call_string_ (this st) ++ sp ++ "⟪" ++ t ++ "⟫"
         /\ everything_except_return_type_ d'
            = everything_except_return_type_ (this st) ++ sp
              ++ "⟪" ++ t ++ "⟫")
  /\ (forall (pre post : list Chunk) (t : string) (n : option (list Chunk)),
         exists a z : string,
           call_string_
             (CompletionData_ctor g k
                (result_of ck
                   (pre ++ mkChunk CXCompletionChunk_Placeholder t n :: post)
                   b))
           = a ++ "⟪" ++ RemoveTwoConsecutiveUnderscores t ++ "⟫" ++ z)
  /\ (forall (pre post : list Chunk) (o x : Chunk),
         Kind o = CXCompletionChunk_Optional ->
         In x (optional_leaves o) ->
         Kind x = CXCompletionChunk_Placeholder ->
         exists a z : string,
           call_string_
             (CompletionData_ctor g k (result_of ck (pre ++ o :: post) b))
           = a ++ "⟦" ++ RemoveTwoConsecutiveUnderscores (Text x) ++ "⟧" ++ z)
  /\ (call_string_
        (CompletionData_ctor (DisableExtraSpace g) k
           (result_of ck two_level_optional b))
      = "f(⟪int a⟫, ⟦int b⟧, ⟦int c⟧)"
      /\ call_string_
           (CompletionData_ctor (EnableExtraSpace g) k
              (result_of ck two_level_optional b))
         = "f( ⟪int a⟫, ⟦int b⟧, ⟦int c⟧ )").
Proof.
  split; [|split; [|split; [|split; [|split]]]].
  - exact OptionalChunkToString_leaves.
  - reflexivity.
  - intros t n st c sp d'. subst c sp d'.
    rewrite ExtractDataFromChunk_eq. cbn. split; reflexivity.
  - intros pre post t n. apply call_string_keeps_placeholder.
  - intros pre post o x. apply call_string_keeps_nested_placeholder.
  - unfold result_of. rewrite !ctor_eq. cbv zeta. cbn [call_string_].
    split; vm_compute; reflexivity.
Qed.

Lemma C6_placeholder_delimiters_witness :
  Kind deep_optional = CXCompletionChunk_Optional
  /\ In deep_placeholder (optional_leaves deep_optional)
  /\ Kind deep_placeholder = CXCompletionChunk_Placeholder
  /\ exists a z : string,
       call_string_
         (CompletionData_ctor initial_statics UNKNOWN
            (result_of CXCursor_FunctionDecl
               ([leaf CXCompletionChunk_TypedText "f"] ++ deep_optional :: [])
               ""))
       = a ++ "⟦" ++ RemoveTwoConsecutiveUnderscores (Text deep_placeholder)
         ++ "⟧" ++ z.
Proof.
  assert (Hin : In deep_placeholder (optional_leaves deep_optional)).
  { cbn. left. reflexivity. }
  split; [reflexivity|]. split; [exact Hin|]. split; [reflexivity|].
  exact (proj1 (proj2 (proj2 (proj2 (proj2
    (C6_placeholder_delimiters initial_statics UNKNOWN
       CXCursor_FunctionDecl ""))))) [leaf CXCompletionChunk_TypedText "f"] []
    deep_optional deep_placeholder eq_refl Hin eq_refl).
Defined.

(** ** Aligned texts *)

Lemma markers_as_items :
  top_open = bytes_of [Triple "159" "170"]
  /\ top_close = bytes_of [Triple "159" "171"]
  /\ nested_open = bytes_of [Triple "159" "166"]
  /\ nested_close = bytes_of [Triple "159" "167"].
Proof. repeat split. Qed.

Lemma bytes_of_app (l1 l2 : list item) :
  bytes_of (l1 ++ l2) = bytes_of l1 ++ bytes_of l2.
Proof.
  induction l1 as [|[c|x y] l1 IH]; cbn; [reflexivity| |]; now rewrite IH.
Qed.

Lemma aligned_Aligned (s : string) : aligned s = true -> Aligned s.
Proof.
  assert (H : forall n s, String.length s <= n -> aligned s = true -> Aligned s).
  { clear s. induction n as [|n IH]; intros s Hn Hs.
    - destruct s; [|cbn in Hn; lia]. exists []. split; reflexivity.
    - destruct s as [|c s]; [exists []; split; reflexivity|].
      cbn [aligned] in Hs. destruct (is_lead c) eqn:Hc.
      + destruct s as [|x [|y s]]; try discriminate Hs.
        apply andb_true_iff in Hs as [Hxy Hs].
        destruct (IH s) as [l [Hl El]]; [cbn in Hn; lia | exact Hs|].
        exists (Triple x y :: l). split.
        * cbn. now rewrite Hxy, Hl.
        * cbn. rewrite El. unfold is_lead in Hc.
          apply Ascii.eqb_eq in Hc. now subst c.
      + destruct (IH s) as [l [Hl El]]; [cbn in Hn; lia | exact Hs|].
        exists (Single c :: l). split.
        * cbn. now rewrite Hc, Hl.
        * cbn. now rewrite El. }
  apply (H (String.length s)). lia.
Qed.

Lemma in_range_not_lead (lo hi : nat) (c : ascii) :
  in_range lo hi c = true -> 226 < lo \/ hi < 226 -> is_lead c = false.
Proof.
  intros H Hb. unfold is_lead.
  destruct (Ascii.eqb_spec c lead_byte) as [->|_]; [|reflexivity].
  unfold in_range in H. cbn in H.
  apply andb_true_iff in H as [H1 H2].
  apply Nat.leb_le in H1, H2. lia.
Qed.

Lemma in_range_weaken (lo hi lo' hi' : nat) (c : ascii) :
  in_range lo hi c = true -> lo' <= lo -> hi <= hi' ->
  in_range lo' hi' c = true.
Proof.
  unfold in_range. cbv zeta. intros H H1 H2.
  apply andb_true_iff in H as [Ha Hb]. apply Nat.leb_le in Ha, Hb.
  apply andb_true_iff. split; apply Nat.leb_le; lia.
Qed.

(** An aligned text does not have to be UTF-8, but well-formed UTF-8 is
    aligned. *)
Lemma utf8_well_formed_aligned (s : string) :
  utf8_well_formed s = true -> aligned s = true.
Proof.
  assert (H : forall n s, String.length s <= n ->
                          utf8_well_formed s = true -> aligned s = true).
  { clear s. induction n as [|n IH]; intros s Hn Hs.
    - destruct s; [reflexivity | cbn in Hn; lia].
    - destruct s as [|c0 r0]; [reflexivity|].
      cbn [utf8_well_formed] in Hs. cbn [String.length] in Hn.
      destruct (in_range 0 127 c0) eqn:R0.
      { cbn [aligned].
        rewrite (in_range_not_lead 0 127 c0 R0) by lia.
        apply IH; [lia | exact Hs]. }
      destruct r0 as [|c1 r1]; [discriminate Hs|].
      cbn [String.length] in Hn.
      destruct (in_range 194 223 c0) eqn:R1.
      { apply andb_true_iff in Hs as [Hc1 Hs]. cbn [aligned].
        rewrite (in_range_not_lead 194 223 c0 R1) by lia.
        rewrite (in_range_not_lead 128 191 c1 Hc1) by lia.
        apply IH; [lia | exact Hs]. }
      destruct r1 as [|c2 r2]; [discriminate Hs|].
      cbn [String.length] in Hn.
      destruct (in_range 224 239 c0) eqn:R2.
      { apply andb_true_iff in Hs as [Hs Hr]. apply andb_true_iff in Hs as [Hc1 Hc2].
        assert (Hc1' : in_range 128 191 c1 = true).
        { destruct (in_range 224 224 c0);
            [apply (in_range_weaken 160 191); auto; lia|].
          destruct (in_range 237 237 c0);
            [apply (in_range_weaken 128 159); auto; lia | exact Hc1]. }
        cbn [aligned]. destruct (is_lead c0).
        - change (is_continuation c1) with (in_range 128 191 c1).
          change (is_continuation c2) with (in_range 128 191 c2).
          rewrite Hc1', Hc2. cbn [andb]. apply IH; [lia | exact Hr].
        - rewrite (in_range_not_lead 128 191 c1 Hc1') by lia.
          rewrite (in_range_not_lead 128 191 c2 Hc2) by lia.
          apply IH; [lia | exact Hr]. }
      destruct r2 as [|c3 r3]; [discriminate Hs|].
      cbn [String.length] in Hn.
      apply andb_true_iff in Hs as [Hs Hr]. apply andb_true_iff in Hs as [Hs Hc3].
      apply andb_true_iff in Hs as [Hs Hc2]. apply andb_true_iff in Hs as [R3 Hc1].
      assert (Hc1' : in_range 128 191 c1 = true).
      { destruct (in_range 240 240 c0);
          [apply (in_range_weaken 144 191); auto; lia|].
        destruct (in_range 244 244 c0);
          [apply (in_range_weaken 128 143); auto; lia | exact Hc1]. }
      cbn [aligned].
      rewrite (in_range_not_lead 240 244 c0 R3) by lia.
      rewrite (in_range_not_lead 128 191 c1 Hc1') by lia.
      rewrite (in_range_not_lead 128 191 c2 Hc2) by lia.
      rewrite (in_range_not_lead 128 191 c3 Hc3) by lia.
      apply IH; [lia | exact Hr]. }
  apply (H (String.length s)). lia.
Qed.

Lemma Aligned_app (a b : string) : Aligned a -> Aligned b -> Aligned (a ++ b).
Proof.
  intros [la [Ha Ea]] [lb [Hb Eb]]. exists (la ++ lb)%list. split.
  - rewrite forallb_app. now rewrite Ha, Hb.
  - now rewrite bytes_of_app, Ea, Eb.
Qed.

Lemma Aligned_empty : Aligned "".
Proof. exists []. split; reflexivity. Qed.

Lemma Aligned_join (l : list string) : Forall Aligned l -> Aligned (join l).
Proof.
  induction 1 as [|s l Hs Hl IH]; cbn; [apply Aligned_empty|].
  now apply Aligned_app.
Qed.

Create HintDb aligned.
#[local] Hint Resolve Aligned_empty Aligned_app aligned_Aligned : aligned.

(** Splits a boolean conjunction in the hypothesis [H]. *)
Ltac split_andb H :=
  repeat match type of H with
         | (_ && _) = true =>
             let H' := fresh H in apply andb_true_iff in H as [H H']
         end.

Lemma ChunkToString_Aligned (c : Chunk) (o cl : string) :
  aligned (Text c) = true -> Aligned o -> Aligned cl ->
  Aligned (ChunkToString c o cl).
Proof.
  intros Ht Ho Hcl. unfold ChunkToString.
  destruct (kind_is (Kind c) CXCompletionChunk_Placeholder);
    auto with aligned.
Qed.

(** A chunk of the sequence rendered with the top-level delimiters, or a
    nested chunk rendered with the nested ones. *)
Lemma rendered_Aligned (c : Chunk) (o cl : string) :
  chunk_aligned c = true -> aligned o = true -> aligned cl = true ->
  Aligned (ChunkToString c o cl).
Proof.
  intros Hc Ho Hcl. destruct c as [kc tc nc].
  cbn [chunk_aligned Text] in Hc. split_andb Hc.
  apply ChunkToString_Aligned; auto with aligned.
Qed.

Lemma OptionalChunkToString_Aligned (c : Chunk) :
  chunk_aligned c = true -> Aligned (OptionalChunkToString c).
Proof.
  induction c as [k t n IH] using Chunk_nested_ind. intros Hc.
  rewrite OptionalChunkToString_eq. cbn [Nested].
  destruct n as [l|]; [|apply Aligned_empty].
  cbn [chunk_aligned Text Nested] in Hc. split_andb Hc.
  apply Aligned_join. apply Forall_map.
  rewrite forallb_forall in Hc0. rewrite Forall_forall in IH |- *.
  intros x Hx. specialize (Hc0 x Hx). specialize (IH x Hx Hc0).
  unfold nested_piece.
  destruct (kind_is (Kind x) CXCompletionChunk_Optional); [exact IH|].
  now apply rendered_Aligned.
Qed.

Section AlignedScan.

(** The process-wide state, with an extra space that is an aligned text: it
    is the empty string or one space after either setter. *)
Variable g : Statics.
Hypothesis extra_space_aligned : aligned (extra_space_ g) = true.

Lemma space_piece_Aligned (l p : bool) (kind : CXCompletionChunkKind) :
  Aligned (space_piece g l p kind).
Proof.
  unfold space_piece. destruct (emits_space l p kind); auto with aligned.
Qed.

Lemma main_piece_Aligned (l p : bool) (c : Chunk) :
  chunk_aligned c = true -> Aligned (main_piece g l p c).
Proof.
  intros Hc. unfold main_piece.
  destruct (IsMainCompletionTextInfo (Kind c)); [|apply Aligned_empty].
  apply Aligned_app; [apply space_piece_Aligned|].
  destruct (kind_is (Kind c) CXCompletionChunk_Optional).
  - now apply OptionalChunkToString_Aligned.
  - now apply rendered_Aligned.
Qed.

Lemma call_piece_Aligned (l p : bool) (c : Chunk) :
  chunk_aligned c = true -> Aligned (call_piece g l p c).
Proof.
  intros Hc. unfold call_piece.
  destruct (IsMainCompletionTextInfo (Kind c)); [|apply Aligned_empty].
  apply Aligned_app; [apply space_piece_Aligned|].
  destruct (kind_is (Kind c) CXCompletionChunk_Optional).
  - now apply OptionalChunkToString_Aligned.
  - destruct (kind_is (Kind c) CXCompletionChunk_Informative);
      [apply Aligned_empty | now apply rendered_Aligned].
Qed.

Lemma scan_main_Aligned (chunks : list Chunk) (l p : bool) :
  forallb chunk_aligned chunks = true -> Aligned (scan_main g l p chunks).
Proof.
  revert l p.
  induction chunks as [|c rest IH]; intros l p H; cbn; [apply Aligned_empty|].
  cbn in H. split_andb H.
  apply Aligned_app; [now apply main_piece_Aligned | now apply IH].
Qed.

Lemma scan_call_Aligned (chunks : list Chunk) (l p : bool) :
  forallb chunk_aligned chunks = true -> Aligned (scan_call g l p chunks).
Proof.
  revert l p.
  induction chunks as [|c rest IH]; intros l p H; cbn; [apply Aligned_empty|].
  cbn in H. split_andb H.
  apply Aligned_app; [now apply call_piece_Aligned | now apply IH].
Qed.

End AlignedScan.

(** ** Erasing a marker from an aligned text *)

Lemma not_lead_sym (c : ascii) : is_lead c = false -> Ascii.eqb lead_byte c = false.
Proof. unfold is_lead. now rewrite Ascii.eqb_sym. Qed.

Lemma continuation_not_lead (x : ascii) :
  is_continuation x = true -> Ascii.eqb lead_byte x = false.
Proof.
  intros H. destruct (Ascii.eqb_spec lead_byte x) as [<-|_]; [|reflexivity].
  vm_compute in H. discriminate H.
Qed.

Lemma forallb_filter {A : Type} (f g : A -> bool) (l : list A) :
  forallb f l = true -> forallb f (filter g l) = true.
Proof.
  induction l as [|a l IH]; cbn; [reflexivity|].
  intros H. apply andb_true_iff in H as [Ha Hl].
  destruct (g a); cbn; [rewrite Ha|]; now apply IH.
Qed.

Lemma erase_from_items (x y : ascii) (l : list item) :
  forallb item_ok l = true ->
  erase_from (bytes_of [Triple x y]) 0 (bytes_of l)
  = bytes_of (filter (fun i => negb (is_triple x y i)) l).
Proof.
  induction l as [|[c|a b] l IH]; intros H; [reflexivity| |];
    cbn [forallb item_ok] in H; apply andb_true_iff in H as [Hi Hl];
    specialize (IH Hl).
  - apply negb_true_iff, not_lead_sym in Hi.
    cbn [bytes_of erase_from starts_with filter is_triple negb].
    rewrite Hi. cbn [andb bytes_of]. now rewrite <- IH.
  - apply andb_true_iff in Hi as [Ha Hb].
    apply continuation_not_lead in Ha, Hb.
    cbn [bytes_of erase_from starts_with filter is_triple].
    rewrite Ascii.eqb_refl. cbn [andb].
    destruct (Ascii.eqb x a && Ascii.eqb y b) eqn:E.
    + apply andb_true_iff in E as [-> ->]. cbn [andb negb].
      cbn [String.length Nat.sub erase_from]. exact IH.
    + assert (E' : (Ascii.eqb x a && (Ascii.eqb y b && true)) = false).
      { now rewrite andb_true_r. }
      rewrite E'. cbn [negb bytes_of].
      rewrite Ha. cbn [andb]. rewrite Hb. cbn [andb].
      now rewrite <- IH.
Qed.

Lemma erase_all_marker (x y : ascii) (l : list item) :
  forallb item_ok l = true ->
  erase_all (bytes_of l) (String "226" (String x (String y "")))
  = bytes_of (filter (fun i => negb (is_triple x y i)) l).
Proof. exact (erase_from_items x y l). Qed.

Lemma RemoveParameterMarkers_items (l : list item) :
  forallb item_ok l = true ->
  RemoveParameterMarkers (bytes_of l) = bytes_of (without_markers l).
Proof.
  intros H. unfold RemoveParameterMarkers, without_markers. cbv zeta.
  rewrite (erase_all_marker _ _ l) by exact H.
  rewrite erase_all_marker by now apply forallb_filter.
  rewrite erase_all_marker by now repeat apply forallb_filter.
  rewrite erase_all_marker by now repeat apply forallb_filter.
  reflexivity.
Qed.

Lemma occurs_items (x y : ascii) (l : list item) :
  forallb item_ok l = true ->
  occurs (bytes_of [Triple x y]) (bytes_of l) = true ->
  In (Triple x y) l.
Proof.
  induction l as [|[c|a b] l IH]; intros H Ho; [discriminate Ho| |];
    cbn [forallb item_ok] in H; apply andb_true_iff in H as [Hi Hl];
    specialize (IH Hl).
  - apply negb_true_iff, not_lead_sym in Hi.
    cbn [bytes_of occurs starts_with] in Ho. rewrite Hi in Ho.
    right. apply IH. exact Ho.
  - apply andb_true_iff in Hi as [Ha Hb].
    apply continuation_not_lead in Ha, Hb.
    cbn [bytes_of occurs starts_with] in Ho.
    rewrite Ascii.eqb_refl, Ha, Hb in Ho. cbn [andb orb] in Ho.
    destruct (Ascii.eqb_spec x a) as [->|_]; [|right; now apply IH].
    destruct (Ascii.eqb_spec y b) as [->|_]; [|right; now apply IH].
    left. reflexivity.
Qed.

Lemma without_markers_In (i : item) (l : list item) :
  In i (without_markers l) ->
  In i l
  /\ is_triple "159" "170" i = false /\ is_triple "159" "171" i = false
  /\ is_triple "159" "166" i = false /\ is_triple "159" "167" i = false.
Proof.
  unfold without_markers. rewrite !filter_In, !negb_true_iff. tauto.
Qed.

Lemma filter_all {A : Type} (f : A -> bool) (l : list A) :
  (forall a, In a l -> f a = true) -> filter f l = l.
Proof.
  induction l as [|a l IH]; cbn; [reflexivity|]. intros H.
  rewrite (H a (or_introl eq_refl)). f_equal. apply IH. auto.
Qed.

Lemma without_markers_idempotent (l : list item) :
  (forall i, In i l ->
     is_triple "159" "170" i = false /\ is_triple "159" "171" i = false
     /\ is_triple "159" "166" i = false /\ is_triple "159" "167" i = false) ->
  without_markers l = l.
Proof.
  intros H. unfold without_markers.
  assert (F : forall x y,
             (forall i, In i l -> is_triple x y i = false) ->
             filter (fun i => negb (is_triple x y i)) l = l).
  { intros x y Hxy. apply filter_all. intros i Hi.
    apply negb_true_iff. now apply Hxy. }
  rewrite (F "159"%char "170"%char) by (intros i Hi; now apply H).
  rewrite (F "159"%char "171"%char) by (intros i Hi; now apply H).
  rewrite (F "159"%char "166"%char) by (intros i Hi; now apply H).
  apply F. intros i Hi. now apply H.
Qed.

(** A text made of items none of which is a marker holds no marker, and
    [RemoveParameterMarkers] leaves it alone. *)
Lemma marker_free_items (l : list item) :
  forallb item_ok l = true ->
  (forall i, In i l ->
     is_triple "159" "170" i = false /\ is_triple "159" "171" i = false
     /\ is_triple "159" "166" i = false /\ is_triple "159" "167" i = false) ->
  occurs "⟪" (bytes_of l) = false /\ occurs "⟫" (bytes_of l) = false
  /\ occurs "⟦" (bytes_of l) = false /\ occurs "⟧" (bytes_of l) = false
  /\ RemoveParameterMarkers (bytes_of l) = bytes_of l.
Proof.
  intros Hok H.
  assert (N : forall x y, is_triple x y (Triple x y) = true).
  { intros x y. cbn. now rewrite !Ascii.eqb_refl. }
  repeat split.
  1-4: apply not_true_iff_false; intros Ho;
       apply (occurs_items _ _ l Hok), H in Ho;
       destruct Ho as [H1 [H2 [H3 H4]]];
       rewrite N in *; discriminate.
  now rewrite RemoveParameterMarkers_items, without_markers_idempotent.
Qed.

(** ** Deleting plain bytes from an aligned text *)

Lemma deletes_plain_items (l : list item) (s' : string) :
  forallb item_ok l = true ->
  deletes_plain (bytes_of l) s' ->
  exists l' : list item,
    forallb item_ok l' = true /\ bytes_of l' = s' /\ incl l' l.
Proof.
  revert s'. induction l as [|[c|x y] l IH]; intros s' H D.
  - inversion D; subst. exists []. repeat split. apply incl_refl.
  - cbn [forallb] in H. apply andb_true_iff in H as [Hi Hl].
    cbn [bytes_of] in D. inversion D as [|? ? s'' D'|? ? ? Hp D']; subst.
    + destruct (IH _ Hl D') as [l' [Hl' [E I]]].
      exists (Single c :: l'). repeat split.
      * cbn [forallb]. now rewrite Hi, Hl'.
      * cbn. now rewrite E.
      * intros i [<-|Hi']; [now left | right; now apply I].
    + destruct (IH _ Hl D') as [l' [Hl' [E I]]].
      exists l'. repeat split; auto. now apply incl_tl.
  - cbn [forallb] in H. apply andb_true_iff in H as [Hi Hl].
    pose proof Hi as Hi0. cbn [item_ok] in Hi.
    apply andb_true_iff in Hi as [Hx Hy].
    assert (Px : is_plain x = false).
    { unfold is_continuation in Hx. unfold is_plain.
      apply andb_true_iff in Hx as [Hx _].
      apply Nat.leb_le in Hx. apply Nat.ltb_ge. exact Hx. }
    assert (Py : is_plain y = false).
    { unfold is_continuation in Hy. unfold is_plain.
      apply andb_true_iff in Hy as [Hy _].
      apply Nat.leb_le in Hy. apply Nat.ltb_ge. exact Hy. }
    cbn [bytes_of] in D.
    inversion D as [|? ? s1 D1|? ? ? Hp D1]; subst;
      [|vm_compute in Hp; discriminate Hp].
    inversion D1 as [|? ? s2 D2|? ? ? Hp D2]; subst; [|congruence].
    inversion D2 as [|? ? s3 D3|? ? ? Hp D3]; subst; [|congruence].
    destruct (IH _ Hl D3) as [l' [Hl' [E I]]].
    exists (Triple x y :: l'). repeat split.
    + cbn [forallb]. now rewrite Hi0, Hl'.
    + cbn. now rewrite E.
    + intros i [<-|Hi']; [now left | right; now apply I].
Qed.

Lemma erase_underscores_deletes_plain (s : string) :
  deletes_plain s (RemoveTwoConsecutiveUnderscores s).
Proof.
  induction s as [|c|c1 c2 s IH1 IH2] using string_ind2.
  - constructor.
  - destruct (ascii_dec c "_") as [->|Hc].
    + repeat constructor.
    + rewrite erase_underscores_other by exact Hc. repeat constructor.
  - destruct (ascii_dec c1 "_") as [->|Hc1].
    + destruct (ascii_dec c2 "_") as [->|Hc2].
      * rewrite erase_underscores_pair.
        apply deletes_drop; [reflexivity|].
        apply deletes_drop; [reflexivity | exact IH1].
      * rewrite erase_underscores_single by exact Hc2.
        apply deletes_keep. exact IH2.
    + rewrite erase_underscores_other by exact Hc1.
      apply deletes_keep. exact IH2.
Qed.

Lemma erase_underscores_Aligned (s : string) :
  Aligned s -> Aligned (RemoveTwoConsecutiveUnderscores s).
Proof.
  intros [l [Hl <-]].
  destruct (deletes_plain_items l _ Hl (erase_underscores_deletes_plain _))
    as [l' [Hl' [E _]]].
  exists l'. now split.
Qed.

(** The main text of an aligned input. *)
Lemma stripped_marker_free (s : string) :
  Aligned s ->
  exists l : list item,
    forallb item_ok l = true
    /\ bytes_of l = RemoveParameterMarkers s
    /\ forall i, In i l ->
         is_triple "159" "170" i = false /\ is_triple "159" "171" i = false
         /\ is_triple "159" "166" i = false /\ is_triple "159" "167" i = false.
Proof.
  intros [l [Hl <-]]. exists (without_markers l). split; [|split].
  - unfold without_markers. now repeat apply forallb_filter.
  - now rewrite RemoveParameterMarkers_items.
  - intros i Hi. now apply without_markers_In in Hi.
Qed.

(** ** The main text holds no marker *)

(** The extra space is an aligned text in every state the setters reach. *)
Lemma extra_space_always_aligned (g : Statics) :
  aligned (extra_space_ initial_statics) = true
  /\ aligned (extra_space_ (EnableExtraSpace g)) = true
  /\ aligned (extra_space_ (DisableExtraSpace g)) = true.
Proof. repeat split. Qed.


(** C3, as stated, fails: the chunk text 226 159 ⟫ 170 is no marker before
    the pass that erases ⟫ and is the marker ⟪ after it, when the pass that
    erases ⟪ is over. *)
Lemma C3_cut_marker_survives :
  everything_except_return_type_
    (CompletionData_ctor initial_statics UNKNOWN cut_marker_result) = "⟪"
  /\ occurs "⟪"
       (everything_except_return_type_
          (CompletionData_ctor initial_statics UNKNOWN cut_marker_result))
     = true
  /\ RemoveParameterMarkers
       (everything_except_return_type_
          (CompletionData_ctor initial_statics UNKNOWN cut_marker_result))
     <> everything_except_return_type_
          (CompletionData_ctor initial_statics UNKNOWN cut_marker_result).
Proof.
  split; [|split]; try reflexivity.
  vm_compute. discriminate.
Qed.

(** C3, amended: when no chunk text cuts a three-byte sequence (every byte
    226 is followed by its two continuation bytes, as in well-formed UTF-8)
    and the extra space is such a text too (it is, after either setter), the
    main text holds none of the four markers and [RemoveParameterMarkers]
    leaves it unchanged. *)
Theorem C3_main_text_has_no_markers (g : Statics) (k : CompletionKind)
    (r : CXCompletionResult) :
  aligned (extra_space_ g) = true ->
  result_aligned r = true ->
  let main := everything_except_return_type_ (CompletionData_ctor g k r) in
  occurs "⟪" main = false /\ occurs "⟫" main = false
  /\ occurs "⟦" main = false /\ occurs "⟧" main = false
  /\ RemoveParameterMarkers main = main.
Proof.
  intros Hg Hr main. subst main.
  destruct r as [ck [[chunks b]|]]; [|repeat split].
  cbn [result_aligned CompletionString Chunks] in Hr.
  rewrite ctor_eq. cbv zeta. cbn [everything_except_return_type_].
  destruct (stripped_marker_free
              (RemoveTwoConsecutiveUnderscores (scan_main g false false chunks)))
    as [l [Hl [<- Hfree]]].
  - apply erase_underscores_Aligned. now apply scan_main_Aligned.
  - now apply marker_free_items.
Qed.

Lemma C3_main_text_has_no_markers_witness :
  aligned (extra_space_ (EnableExtraSpace initial_statics)) = true
  /\ result_aligned reserved_parameter_result = true
  /\ occurs "⟪"
       (everything_except_return_type_
          (CompletionData_ctor (EnableExtraSpace initial_statics) UNKNOWN
             reserved_parameter_result)) = false.
Proof.
  split; [reflexivity|]. split; [reflexivity|].
  exact (proj1 (C3_main_text_has_no_markers (EnableExtraSpace initial_statics)
                  UNKNOWN reserved_parameter_result eq_refl eq_refl)).
Defined.

(** ** The pass of cv_re *)

Lemma cv_replace_select (skip : nat) (pw : bool) (s : string) :
  cv_replace_from skip pw s = select (regex_keep_from skip pw s) s.
Proof.
  revert skip pw. induction s as [|c s IH]; intros skip pw; [reflexivity|].
  cbn [cv_replace_from regex_keep_from].
  destruct skip as [|k]; [destruct (cv_re_match pw (String c s))|];
    cbn [select]; now rewrite IH.
Qed.

Lemma regex_keep_length (skip : nat) (pw : bool) (s : string) :
  List.length (regex_keep_from skip pw s) = String.length s.
Proof.
  revert skip pw. induction s as [|c s IH]; intros skip pw; [reflexivity|].
  cbn [regex_keep_from].
  destruct skip as [|k]; [destruct (cv_re_match pw (String c s))|];
    cbn; now rewrite IH.
Qed.

(** While [skip] lasts, nothing is kept. *)
Lemma regex_keep_skipped (n skip : nat) (pw : bool) (s : string) :
  n <= skip -> n <= String.length s ->
  firstn n (regex_keep_from skip pw s) = repeat false n.
Proof.
  revert skip pw s. induction n as [|n IH]; intros skip pw s Hs Hn;
    [reflexivity|].
  destruct s as [|c s]; [cbn in Hn; lia|].
  destruct skip as [|k]; [lia|].
  cbn [regex_keep_from firstn repeat]. f_equal.
  apply IH; cbn in Hn; lia.
Qed.

Lemma drop_length (n : nat) (s : string) :
  String.length (drop n s) = String.length s - n.
Proof.
  revert s. induction n as [|n IH]; intros [|c s]; cbn; auto.
Qed.

Lemma drop_app (n : nat) (a r : string) :
  n <= String.length a -> drop n (a ++ r) = drop n a ++ r.
Proof.
  revert a. induction n as [|n IH]; intros a H.
  - now destruct a.
  - destruct a as [|c a]; [cbn in H; lia|]. cbn. apply IH. cbn in H. lia.
Qed.

Lemma drop_all (a r : string) : drop (String.length a) (a ++ r) = r.
Proof.
  induction a as [|c a IH]; cbn; [now destruct r | exact IH].
Qed.

Lemma count_spaces_le (s : string) : count_spaces s <= String.length s.
Proof.
  induction s as [|c s IH]; cbn; [lia|]. destruct (is_space c); lia.
Qed.

(** White space counted across a junction: either all of [a] and then on, or
    short of the end of [a]. *)
Lemma count_spaces_app (a r : string) :
  (count_spaces a = String.length a
   /\ count_spaces (a ++ r) = String.length a + count_spaces r)
  \/ (count_spaces a < String.length a
      /\ count_spaces (a ++ r) = count_spaces a).
Proof.
  induction a as [|c a IH]; cbn; [left; lia|].
  destruct (is_space c); [|right; lia].
  destruct IH as [[E1 E2]|[E1 E2]]; [left | right]; lia.
Qed.

Lemma space_not_word (c : ascii) : is_space c = true -> is_word c = false.
Proof.
  destruct c as [[] [] [] [] [] [] [] []]; vm_compute; intros; congruence.
Qed.

Lemma count_spaces_before_word (r : string) :
  next_is_word r = true -> count_spaces r = 0.
Proof.
  destruct r as [|c r]; [reflexivity|]. cbn. intros Hw.
  destruct (is_space c) eqn:Hs; [|reflexivity].
  apply space_not_word in Hs. congruence.
Qed.

Lemma count_spaces_app_le (a r : string) :
  next_is_word r = true ->
  count_spaces (a ++ r) <= String.length a.
Proof.
  intros Hr. apply count_spaces_before_word in Hr.
  destruct (count_spaces_app a r) as [[E1 E2]|[E1 E2]]; lia.
Qed.

Lemma cv_keyword_cases (s : string) (k : nat) :
  cv_keyword s = Some k ->
  (k = 5 /\ starts_with "const" s = true)
  \/ (k = 8 /\ starts_with "volatile" s = true).
Proof.
  unfold cv_keyword.
  destruct (starts_with "const" s); [intros [= <-]; now left|].
  destruct (starts_with "volatile" s); [intros [= <-]; now right|].
  discriminate.
Qed.

Lemma starts_with_prefix_all (f : ascii -> bool) (p a r : string) :
  starts_with p (a ++ r) = true ->
  String.length a <= String.length p ->
  string_forallb f p = true ->
  string_forallb f a = true.
Proof.
  revert p. induction a as [|c a IH]; intros p Hs Hl Hf; [reflexivity|].
  destruct p as [|x p]; [cbn in Hl; lia|].
  cbn in Hs, Hl, Hf. apply andb_true_iff in Hs as [Hx Hs].
  apply andb_true_iff in Hf as [Hfx Hf].
  apply Ascii.eqb_eq in Hx. subst x.
  cbn. rewrite Hfx. apply (IH p); auto. lia.
Qed.

Lemma last_is_word_all (pw : bool) (a : string) :
  string_forallb is_word a = true -> a <> "" -> last_is_word pw a = true.
Proof.
  revert pw. induction a as [|c a IH]; intros pw H N; [congruence|].
  cbn in H |- *. apply andb_true_iff in H as [Hc Ha].
  destruct a as [|c' a]; [exact Hc|]. apply IH; [exact Ha | discriminate].
Qed.

Lemma last_is_word_drop (n : nat) (pw : bool) (a : string) :
  n < String.length a ->
  exists pw', last_is_word pw a = last_is_word pw' (drop n a).
Proof.
  revert pw a. induction n as [|n IH]; intros pw a H.
  - exists pw. now destruct a.
  - destruct a as [|c a]; [cbn in H; lia|]. cbn.
    apply IH. cbn in H. lia.
Qed.

Lemma cv_re_match_const (b : string) :
  cv_re_match false ("const" ++ b)
  = if negb (next_is_word b) then Some (5 + count_spaces b) else None.
Proof. reflexivity. Qed.

Lemma cv_re_match_volatile (b : string) :
  cv_re_match false ("volatile" ++ b)
  = if negb (next_is_word b) then Some (8 + count_spaces b) else None.
Proof. reflexivity. Qed.

(** A whole word at the head of the text is matched, with the white space
    after it. *)
Lemma cv_re_match_word (kw b : string) :
  kw = "const" \/ kw = "volatile" ->
  next_is_word b = false ->
  cv_re_match false (kw ++ b) = Some (String.length kw + count_spaces b).
Proof.
  intros [->| ->] Hb;
    [rewrite cv_re_match_const | rewrite cv_re_match_volatile];
    now rewrite Hb.
Qed.

(** A match that starts in [a] ends in [a] or takes the whole word that
    follows [a]; it never ends inside that word. *)
Lemma cv_re_match_boundary (pw : bool) (a kw b : string) (n : nat) :
  kw = "const" \/ kw = "volatile" ->
  last_is_word pw a = false ->
  cv_re_match pw (a ++ kw ++ b) = Some n ->
  n <= String.length a \/ String.length a + String.length kw <= n.
Proof.
  intros Hkw Hlast Hm. unfold cv_re_match in Hm.
  assert (Hw : next_is_word (kw ++ b) = true)
    by (destruct Hkw; subst; reflexivity).
  destruct (count_spaces_app a (kw ++ b)) as [[E1 E2]|[E1 E2]].
  - rewrite E2, (count_spaces_before_word _ Hw), Nat.add_0_r, drop_all in Hm.
    right.
    destruct (_ && _); [|discriminate Hm].
    assert (Ek : cv_keyword (kw ++ b) = Some (String.length kw))
      by (destruct Hkw; subst kw; reflexivity).
    rewrite Ek in Hm.
    destruct (negb _); [|discriminate Hm].
    injection Hm as <-. lia.
  - rewrite E2 in Hm.
    rewrite drop_app in Hm by lia.
    pose proof (drop_length (count_spaces a) a) as La.
    set (lead := count_spaces a) in *. set (a1 := drop lead a) in *.
    destruct (_ && _); [|discriminate Hm].
    destruct (cv_keyword (a1 ++ kw ++ b)) as [k|] eqn:Ek; [|discriminate Hm].
    destruct (negb _); [|discriminate Hm]. injection Hm as <-.
    destruct (le_lt_dec k (String.length a1)) as [Hk|Hk].
    + left. rewrite drop_app by exact Hk.
      pose proof (count_spaces_app_le (drop k a1) (kw ++ b) Hw) as Hc.
      rewrite drop_length in Hc. lia.
    + exfalso.
      assert (Ha1 : string_forallb is_word a1 = true).
      { apply cv_keyword_cases in Ek as [[-> Ek]|[-> Ek]].
        - apply (starts_with_prefix_all is_word "const" a1 _ Ek);
            [cbn; lia | reflexivity].
        - apply (starts_with_prefix_all is_word "volatile" a1 _ Ek);
            [cbn; lia | reflexivity]. }
      destruct (last_is_word_drop lead pw a) as [pw' E]; [lia|].
      fold a1 in E. rewrite E in Hlast.
      rewrite last_is_word_all in Hlast; [discriminate Hlast | exact Ha1|].
      intros N. rewrite N in La. cbn in La. lia.
Qed.

(** Every whole word const or volatile of the text is deleted by the pass. *)
Lemma regex_keep_whole_word (a kw b : string) (skip : nat) (pw : bool) :
  kw = "const" \/ kw = "volatile" ->
  last_is_word pw a = false ->
  next_is_word b = false ->
  skip <= String.length a \/ String.length a + String.length kw <= skip ->
  firstn (String.length kw)
    (skipn (String.length a) (regex_keep_from skip pw (a ++ kw ++ b)))
  = repeat false (String.length kw).
Proof.
  intros Hkw. revert skip pw.
  induction a as [|c a IH]; intros skip pw Hlast Hb Hskip.
  - cbn [append String.length skipn]. cbn in Hlast. subst pw.
    assert (Hlen : String.length kw <= String.length (kw ++ b))
      by (rewrite append_length; lia).
    destruct skip as [|k].
    + pose proof (cv_re_match_word kw b Hkw Hb) as Hm.
      destruct Hkw; subst kw; cbn [append regex_keep_from] in *;
        rewrite Hm; cbn [String.length Nat.add Nat.sub firstn repeat];
        f_equal; apply regex_keep_skipped; cbn; lia.
    + apply regex_keep_skipped; [cbn in Hskip; lia | exact Hlen].
  - cbn [append String.length skipn regex_keep_from].
    cbn [last_is_word] in Hlast. cbn [String.length] in Hskip.
    destruct skip as [|k].
    + destruct (cv_re_match pw (String c (a ++ kw ++ b))) as [n|] eqn:Hm.
      * cbn [skipn]. apply IH; auto.
        pose proof (cv_re_match_boundary pw (String c a) kw b n Hkw Hlast Hm)
          as Hn.
        cbn [String.length] in Hn. lia.
      * cbn [skipn]. apply IH; auto. lia.
    + cbn [skipn]. apply IH; auto. lia.
Qed.

(** ** What cv_re deletes is plain *)

Lemma space_is_plain (c : ascii) : is_space c = true -> is_plain c = true.
Proof.
  destruct c as [[] [] [] [] [] [] [] []]; vm_compute; intros; congruence.
Qed.

Lemma string_forallb_app (f : ascii -> bool) (a b : string) :
  string_forallb f (a ++ b) = string_forallb f a && string_forallb f b.
Proof.
  induction a as [|c a IH]; cbn; [reflexivity|]. now rewrite IH, andb_assoc.
Qed.

Lemma take_add (n m : nat) (s : string) :
  take (n + m) s = take n s ++ take m (drop n s).
Proof.
  revert s. induction n as [|n IH]; intros s.
  - cbn. now destruct s.
  - destruct s as [|c s]; cbn; [now destruct m | now rewrite IH].
Qed.

Lemma take_spaces_plain (s : string) :
  string_forallb is_plain (take (count_spaces s) s) = true.
Proof.
  induction s as [|c s IH]; [reflexivity|]. cbn [count_spaces].
  destruct (is_space c) eqn:Hc; [|reflexivity].
  cbn [take string_forallb].
  now rewrite (space_is_plain c Hc), IH.
Qed.

Lemma starts_with_take (p s : string) :
  starts_with p s = true -> take (String.length p) s = p.
Proof.
  revert s. induction p as [|x p IH]; intros s H; [now destruct s|].
  destruct s as [|c s]; [discriminate H|]. cbn in H |- *.
  apply andb_true_iff in H as [Hx Hs]. apply Ascii.eqb_eq in Hx.
  subst c. now rewrite IH.
Qed.

Lemma cv_re_match_plain (pw : bool) (s : string) (n : nat) :
  cv_re_match pw s = Some n ->
  1 <= n /\ string_forallb is_plain (take n s) = true.
Proof.
  unfold cv_re_match. set (lead := count_spaces s). set (s1 := drop lead s).
  destruct (_ && _); [|discriminate].
  destruct (cv_keyword s1) as [k|] eqn:Ek; [|discriminate].
  destruct (negb _); [|discriminate]. intros [= <-].
  assert (Hk : 5 <= k /\ string_forallb is_plain (take k s1) = true).
  { apply cv_keyword_cases in Ek as [[-> Ek]|[-> Ek]].
    - split; [lia|].
      change 5 with (String.length "const").
      now rewrite (starts_with_take "const" s1 Ek).
    - split; [lia|].
      change 8 with (String.length "volatile").
      now rewrite (starts_with_take "volatile" s1 Ek). }
  destruct Hk as [Hk Hp]. split; [lia|].
  rewrite <- Nat.add_assoc, take_add, take_add, !string_forallb_app.
  fold s1. unfold lead at 1.
  now rewrite take_spaces_plain, Hp, take_spaces_plain.
Qed.

Lemma cv_replace_deletes_plain (skip : nat) (pw : bool) (s : string) :
  string_forallb is_plain (take skip s) = true ->
  deletes_plain s (cv_replace_from skip pw s).
Proof.
  revert skip pw. induction s as [|c s IH]; intros skip pw H; [constructor|].
  cbn [cv_replace_from]. destruct skip as [|k].
  - destruct (cv_re_match pw (String c s)) as [n|] eqn:Hm.
    + apply cv_re_match_plain in Hm as [Hn Hp].
      destruct n as [|n]; [lia|]. cbn in Hp.
      apply andb_true_iff in Hp as [Hc Hp].
      apply deletes_drop; [exact Hc|]. apply IH.
      replace (S n - 1) with n by lia. exact Hp.
    + apply deletes_keep. apply IH. now destruct s.
  - cbn in H. apply andb_true_iff in H as [Hc Hp].
    apply deletes_drop; [exact Hc | now apply IH].
Qed.

(** ** The matcher on cv_re *)

Lemma match_spaces_all (pw : bool) (s : string) (n : nat) :
  match_spaces (fun _ _ m => Some m) pw s n = Some (n + count_spaces s).
Proof.
  revert pw n. induction s as [|c s IH]; intros pw n; cbn.
  - f_equal. lia.
  - destruct (is_space c); [rewrite IH|]; f_equal; lia.
Qed.

(** Before [\<] the white space is taken whole: after a shorter run the next
    byte is white space, which is no word character. *)
Lemma match_spaces_word_start (k : continuation) (pw : bool) (s : string)
    (n : nat) :
  match_spaces (match_regex re_word_start k) pw s n
  = match_regex re_word_start k
      (if (count_spaces s =? 0)%nat then pw else false)
      (drop (count_spaces s) s) (n + count_spaces s).
Proof.
  revert pw n. induction s as [|c s IH]; intros pw n.
  - cbn. now rewrite Nat.add_0_r.
  - cbn [match_spaces count_spaces]. destruct (is_space c) eqn:Hc.
    + rewrite IH. pose proof (space_not_word c Hc) as Hw. rewrite Hw.
      cbn [Nat.eqb drop].
      replace (if (count_spaces s =? 0)%nat then false else false)
        with false by now destruct (count_spaces s =? 0)%nat.
      replace (S n + count_spaces s) with (n + S (count_spaces s)) by lia.
      destruct (match_regex re_word_start k false _ _); [reflexivity|].
      cbn [match_regex next_is_word]. rewrite Hw.
      now rewrite andb_false_r.
    + cbn [Nat.eqb drop]. now rewrite Nat.add_0_r.
Qed.

Lemma starts_with_const_not_volatile (s : string) :
  starts_with "const" s = true -> starts_with "volatile" s = false.
Proof.
  destruct s as [|c s]; [discriminate|]. cbn [starts_with].
  destruct (Ascii.eqb_spec "c" c) as [<-|_]; [reflexivity | discriminate].
Qed.

(** The backtracking matcher finds on [cv_re] what [cv_re_match] computes. *)
Lemma cv_re_match_eq (pw : bool) (s : string) :
  regex_match_here cv_re pw s = cv_re_match pw s.
Proof.
  unfold regex_match_here, cv_re.
  change (match_regex (re_seq re_spaces ?r) ?k pw s 0)
    with (match_spaces (match_regex r k) pw s 0).
  change (match_regex (re_seq re_word_start ?r) ?k)
    with (match_regex re_word_start (match_regex r k)).
  rewrite match_spaces_word_start. unfold cv_re_match. cbv zeta.
  set (lead := count_spaces s). set (s1 := drop lead s).
  set (behind := if (lead =? 0)%nat then pw else false).
  cbn [match_regex Nat.add].
  destruct (negb behind && next_is_word s1); [|reflexivity].
  change (last_is_word behind "const") with true.
  change (last_is_word behind "volatile") with true.
  cbn [andb String.length]. rewrite !match_spaces_all.
  unfold cv_keyword.
  destruct (starts_with "const" s1) eqn:Ec.
  - rewrite (starts_with_const_not_volatile s1 Ec).
    now destruct (negb (next_is_word (drop 5 s1))).
  - destruct (starts_with "volatile" s1); [|reflexivity].
    now destruct (negb (next_is_word (drop 8 s1))).
Qed.

Lemma regex_replace_from_cv_re (skip : nat) (pw : bool) (s : string) :
  regex_replace_from cv_re skip pw s = cv_replace_from skip pw s.
Proof.
  revert skip pw. induction s as [|c s IH]; intros skip pw; [reflexivity|].
  cbn [regex_replace_from cv_replace_from].
  destruct skip as [|k]; [|apply IH].
  rewrite cv_re_match_eq.
  destruct (cv_re_match pw (String c s)) as [n|] eqn:E; [|now rewrite IH].
  apply cv_re_match_plain in E as [Hn _].
  destruct n as [|n]; [lia|].
  replace (S n - 1) with n by lia. apply IH.
Qed.

Lemma regex_replace_cv_re_eq (text : string) :
  regex_replace text cv_re = cv_replace_from 0 false text.
Proof. apply regex_replace_from_cv_re. Qed.

Lemma take_drop (n : nat) (s : string) : take n s ++ drop n s = s.
Proof.
  revert s. induction n as [|n IH]; intros [|c s]; cbn; auto.
  now rewrite IH.
Qed.

(** [has_cv_word] finds exactly the splits that [regex_keep_whole_word] is
    about. *)
Lemma has_cv_word_split (pw : bool) (s : string) :
  has_cv_word pw s = true ->
  exists a kw z : string,
    s = a ++ kw ++ z
    /\ (kw = "const" \/ kw = "volatile")
    /\ last_is_word pw a = false
    /\ next_is_word z = false.
Proof.
  revert pw. induction s as [|c s IH]; intros pw H.
  - cbn in H. rewrite orb_false_r in H. unfold cv_word_at in H.
    rewrite andb_false_r in H. discriminate H.
  - cbn [has_cv_word] in H. apply orb_true_iff in H as [H|H].
    + unfold cv_word_at in H. apply andb_true_iff in H as [Hp H].
      apply negb_true_iff in Hp.
      destruct (cv_keyword (String c s)) as [k|] eqn:Ek; [|discriminate H].
      apply negb_true_iff in H.
      exists "", (take k (String c s)), (drop k (String c s)).
      cbn [append]. rewrite take_drop. repeat split; auto.
      apply cv_keyword_cases in Ek as [[-> Ek]|[-> Ek]].
      * left. exact (starts_with_take "const" _ Ek).
      * right. exact (starts_with_take "volatile" _ Ek).
    + destruct (IH _ H) as [a [kw [z [E [Hkw [Ha Hz]]]]]].
      exists (String c a), kw, z. cbn [append last_is_word].
      rewrite <- E. repeat split; auto.
Qed.

(** ** The key string *)

(** C5, as stated, fails: deleting the word const from "co const nst", with
    the white space around it, joins the two halves into the word const. *)
Lemma C5_joined_halves_make_const :
  key_string_ (CompletionData_ctor initial_statics UNKNOWN joined_const_result)
  = "const"
  /\ has_cv_word false
       (key_string_
          (CompletionData_ctor initial_statics UNKNOWN joined_const_result))
     = true.
Proof. split; reflexivity. Qed.

(** C5, amended: the key string is the call string with the markers removed
    and then one pass of cv_re over it.  That pass deletes every whole word
    const or volatile of its input: wherever the input reads a, word, z with
    no word character on either side of the word, no byte of the word is
    kept.  (What the pass leaves may still read const or volatile, where a
    deletion joins two fragments.)  When no chunk text cuts a three-byte
    sequence the key string holds none of the four markers.  The call string
    keeps its markers: each Placeholder of the sequence stands in it between
    ⟪ and ⟫, each Placeholder below an Optional chunk between ⟦ and ⟧. *)
Theorem C5_key_string (g : Statics) (k : CompletionKind) (ck : CXCursorKind)
    (chunks : list Chunk) (b : string) :
  let d := CompletionData_ctor g k (result_of ck chunks b) in
  key_string_ d
  = regex_replace (RemoveParameterMarkers (call_string_ d)) cv_re
  /\ (forall a kw z : string,
         kw = "const" \/ kw = "volatile" ->
         RemoveParameterMarkers (call_string_ d) = a ++ kw ++ z ->
         last_is_word false a = false ->
         next_is_word z = false ->
         let keep := regex_keep_from 0 false (a ++ kw ++ z) in
         key_string_ d = select keep (a ++ kw ++ z)
         /\ List.length keep = String.length (a ++ kw ++ z)
         /\ firstn (String.length kw) (skipn (String.length a) keep)
            = repeat false (String.length kw))
  /\ (aligned (extra_space_ g) = true ->
      forallb chunk_aligned chunks = true ->
      occurs "⟪" (key_string_ d) = false /\ occurs "⟫" (key_string_ d) = false
      /\ occurs "⟦" (key_string_ d) = false
      /\ occurs "⟧" (key_string_ d) = false)
  /\ (forall (pre post : list Chunk) (t : string) (n : option (list Chunk)),
         chunks
         = (pre ++ mkChunk CXCompletionChunk_Placeholder t n :: post)%list ->
         exists a z : string,
           call_string_ d
           = a ++ "⟪" ++ RemoveTwoConsecutiveUnderscores t ++ "⟫" ++ z)
  /\ (forall (pre post : list Chunk) (o x : Chunk),
         chunks = (pre ++ o :: post)%list ->
         Kind o = CXCompletionChunk_Optional ->
         In x (optional_leaves o) ->
         Kind x = CXCompletionChunk_Placeholder ->
         exists a z : string,
           call_string_ d
           = a ++ "⟦" ++ RemoveTwoConsecutiveUnderscores (Text x) ++ "⟧" ++ z).
Proof.
  intros d.
  assert (Hkey : key_string_ d
                 = regex_replace (RemoveParameterMarkers (call_string_ d)) cv_re).
  { subst d. unfold result_of. rewrite ctor_eq. reflexivity. }
  split; [exact Hkey|]. split; [|split; [|split]].
  - intros a kw z Hkw Hsplit Ha Hz keep. subst keep.
    rewrite Hkey, Hsplit, regex_replace_cv_re_eq. split; [|split].
    + apply cv_replace_select.
    + apply regex_keep_length.
    + apply regex_keep_whole_word; auto. lia.
  - intros Hg Hc. rewrite Hkey, regex_replace_cv_re_eq.
    assert (Hcall : Aligned (call_string_ d)).
    { subst d. unfold result_of. rewrite ctor_eq. cbv zeta. cbn [call_string_].
      apply erase_underscores_Aligned. now apply scan_call_Aligned. }
    destruct (stripped_marker_free _ Hcall) as [l [Hl [<- Hfree]]].
    destruct (deletes_plain_items l (cv_replace_from 0 false (bytes_of l)) Hl)
      as [l' [Hl' [<- Hincl]]].
    { apply cv_replace_deletes_plain. reflexivity. }
    destruct (marker_free_items l' Hl') as [H1 [H2 [H3 [H4 _]]]].
    { intros i Hi. apply Hfree, Hincl, Hi. }
    repeat split; assumption.
  - intros pre post t n ->. apply call_string_keeps_placeholder.
  - intros pre post o x ->. apply call_string_keeps_nested_placeholder.
Qed.

Lemma C5_key_string_witness :
  ("const" = "const" \/ "const" = "volatile")
  /\ RemoveParameterMarkers
       (call_string_
          (CompletionData_ctor (EnableExtraSpace initial_statics) UNKNOWN
             reserved_parameter_result))
     = "seek( " ++ "const" ++ " size_t pos )"
  /\ last_is_word false "seek( " = false
  /\ next_is_word " size_t pos )" = false
  /\ key_string_
       (CompletionData_ctor (EnableExtraSpace initial_statics) UNKNOWN
          reserved_parameter_result)
     = select
         (regex_keep_from 0 false ("seek( " ++ "const" ++ " size_t pos )"))
         ("seek( " ++ "const" ++ " size_t pos )")
  /\ aligned (extra_space_ (EnableExtraSpace initial_statics)) = true
  /\ forallb chunk_aligned reserved_parameter_chunks = true
  /\ occurs "⟪"
       (key_string_
          (CompletionData_ctor (EnableExtraSpace initial_statics) UNKNOWN
             reserved_parameter_result)) = false.
Proof.
  split; [left; reflexivity|]. split; [reflexivity|].
  split; [reflexivity|]. split; [reflexivity|].
  split.
  - exact (proj1 (proj1 (proj2
      (C5_key_string (EnableExtraSpace initial_statics) UNKNOWN
         CXCursor_FunctionDecl reserved_parameter_chunks ""))
      "seek( " "const" " size_t pos )" (or_introl eq_refl) eq_refl eq_refl
      eq_refl)).
  - split; [reflexivity|]. split; [reflexivity|].
    exact (proj1 (proj1 (proj2 (proj2
      (C5_key_string (EnableExtraSpace initial_statics) UNKNOWN
         CXCursor_FunctionDecl reserved_parameter_chunks ""))) eq_refl
      eq_refl)).
Defined.

(** * Further properties of the code *)

(** ** Chunks the scan ignores *)

(** X1: a chunk whose kind is neither one of the seventeen display kinds nor
    ResultType (Text, CurrentParameter, VerticalSpace, a tag outside the
    enumeration) changes nothing: the record is the one built from the
    sequence without it. *)
Theorem X1_ignored_kind_is_skipped (g : Statics) (k : CompletionKind)
    (ck : CXCursorKind) (b : string) (pre post : list Chunk) (c : Chunk) :
  IsMainCompletionTextInfo (Kind c) = false ->
  Kind c <> CXCompletionChunk_ResultType ->
  CompletionData_ctor g k (result_of ck (pre ++ c :: post) b)
  = CompletionData_ctor g k (result_of ck (pre ++ post) b).
Proof.
  intros Hm Hr. unfold result_of. rewrite !ctor_eq. cbv zeta.
  rewrite scan_main_insert, scan_call_insert, scan_main_app, scan_call_app,
    !scan_return_app.
  destruct (paren_state_kept (fst (paren_after false false pre))
              (snd (paren_after false false pre)) (Kind c)) as [-> ->];
    [left; exact Hm|].
  assert (Em : forall l p, main_piece g l p c = "")
    by (intros; unfold main_piece; now rewrite Hm).
  assert (Ec : forall l p, call_piece g l p c = "")
    by (intros; unfold call_piece; now rewrite Hm).
  rewrite Em, Ec. cbn [append scan_return].
  assert (Ek : kind_is (Kind c) CXCompletionChunk_ResultType = false).
  { unfold kind_is.
    now destruct (chunk_kind_eq_dec (Kind c) CXCompletionChunk_ResultType). }
  rewrite Ek. reflexivity.
Qed.

Lemma X1_ignored_kind_is_skipped_witness :
  IsMainCompletionTextInfo
    (Kind (leaf CXCompletionChunk_CurrentParameter "int whence")) = false
  /\ Kind (leaf CXCompletionChunk_CurrentParameter "int whence")
     <> CXCompletionChunk_ResultType
  /\ CompletionData_ctor (EnableExtraSpace initial_statics) UNKNOWN
       (result_of CXCursor_FunctionDecl
          (seek_chunks_with_current_parameter
           ++ leaf CXCompletionChunk_CurrentParameter "int whence"
           :: [leaf CXCompletionChunk_RightParen ")"]) "")
     = CompletionData_ctor (EnableExtraSpace initial_statics) UNKNOWN
         (result_of CXCursor_FunctionDecl
            (seek_chunks_with_current_parameter
             ++ [leaf CXCompletionChunk_RightParen ")"]) "").
Proof.
  assert (Hr : Kind (leaf CXCompletionChunk_CurrentParameter "int whence")
               <> CXCompletionChunk_ResultType) by discriminate.
  split; [reflexivity|]. split; [exact Hr|].
  exact (X1_ignored_kind_is_skipped (EnableExtraSpace initial_statics) UNKNOWN
           CXCursor_FunctionDecl "" seek_chunks_with_current_parameter
           [leaf CXCompletionChunk_RightParen ")"]
           (leaf CXCompletionChunk_CurrentParameter "int whence") eq_refl Hr).
Defined.

(** ** The paren state *)

Lemma paren_after_monotone (chunks : list Chunk) (l p : bool) :
  (p = true -> l = true) ->
  (snd (paren_after l p chunks) = true -> fst (paren_after l p chunks) = true)
  /\ (l = true -> fst (paren_after l p chunks) = true)
  /\ (p = true -> snd (paren_after l p chunks) = true).
Proof.
  revert l p. induction chunks as [|c rest IH]; intros l p H; [now cbn|].
  cbn [paren_after].
  assert (Hl : l = true -> next_left_paren l (Kind c) = true).
  { intros ->. unfold next_left_paren. now destruct (kind_is _ _). }
  assert (Hp : p = true -> next_function_params l p (Kind c) = true).
  { intros ->. unfold next_function_params. now destruct (_ && _). }
  assert (Hi : next_function_params l p (Kind c) = true ->
               next_left_paren l (Kind c) = true).
  { unfold next_function_params.
    destruct (IsMainCompletionTextInfo (Kind c)
              && negb (kind_is (Kind c) CXCompletionChunk_LeftParen)
              && l && negb p
              && negb (kind_is (Kind c) CXCompletionChunk_RightParen)
              && negb (kind_is (Kind c) CXCompletionChunk_Informative)) eqn:E.
    - intros _. apply Hl.
      rewrite !andb_true_iff in E. tauto.
    - intros Hp'. auto. }
  destruct (IH _ _ Hi) as [I1 [I2 I3]]. repeat split; auto.
Qed.

(** X2: the two flags of the scan are never reset, and from a state in which
    saw_function_params implies saw_left_paren (the constructor starts with
    both false) every scan ends in such a state: parameters are only ever
    seen after a left paren. *)
Theorem X2_paren_flags_only_rise (g : Statics) (chunks : list Chunk)
    (st : scan_state) :
  (saw_function_params st = true -> saw_left_paren st = true) ->
  (saw_function_params (scan g chunks st) = true ->
   saw_left_paren (scan g chunks st) = true)
  /\ (saw_left_paren st = true -> saw_left_paren (scan g chunks st) = true)
  /\ (saw_function_params st = true ->
      saw_function_params (scan g chunks st) = true).
Proof.
  intros H. unfold scan. rewrite scan_eq.
  cbn [saw_left_paren saw_function_params].
  now apply paren_after_monotone.
Qed.

Lemma X2_paren_flags_only_rise_witness :
  (saw_function_params
     {| this := default_initialized UNKNOWN;
        saw_left_paren := false;
        saw_function_params := false |} = true ->
   saw_left_paren
     {| this := default_initialized UNKNOWN;
        saw_left_paren := false;
        saw_function_params := false |} = true)
  /\ (saw_function_params
        (scan initial_statics reserved_parameter_chunks
           {| this := default_initialized UNKNOWN;
              saw_left_paren := false;
              saw_function_params := false |}) = true ->
      saw_left_paren
        (scan initial_statics reserved_parameter_chunks
           {| this := default_initialized UNKNOWN;
              saw_left_paren := false;
              saw_function_params := false |}) = true).
Proof.
  assert (H : saw_function_params
                {| this := default_initialized UNKNOWN;
                   saw_left_paren := false;
                   saw_function_params := false |} = true ->
              saw_left_paren
                {| this := default_initialized UNKNOWN;
                   saw_left_paren := false;
                   saw_function_params := false |} = true)
    by (cbn; discriminate).
  split; [exact H|].
  exact (proj1 (X2_paren_flags_only_rise initial_statics
                  reserved_parameter_chunks _ H)).
Defined.

(** ** Where the extra space cannot show *)

Lemma emits_space_needs_left_paren (kind : CXCompletionChunkKind) :
  emits_space false false kind = false
  /\ next_function_params false false kind = false.
Proof. destruct kind; split; reflexivity. Qed.

Lemma next_left_paren_other (kind : CXCompletionChunkKind) :
  kind <> CXCompletionChunk_LeftParen -> next_left_paren false kind = false.
Proof.
  intros H. unfold next_left_paren, kind_is.
  now destruct (chunk_kind_eq_dec kind CXCompletionChunk_LeftParen).
Qed.

Lemma scan_without_left_paren (g g' : Statics) (chunks : list Chunk) :
  Forall (fun c => Kind c <> CXCompletionChunk_LeftParen) chunks ->
  scan_main g false false chunks = scan_main g' false false chunks
  /\ scan_call g false false chunks = scan_call g' false false chunks.
Proof.
  induction 1 as [|c rest Hc Hrest [IHm IHc]]; [now split|].
  cbn [scan_main scan_call].
  rewrite (next_left_paren_other _ Hc).
  rewrite (proj2 (emits_space_needs_left_paren (Kind c))).
  rewrite IHm, IHc.
  unfold main_piece, call_piece, space_piece.
  rewrite (proj1 (emits_space_needs_left_paren (Kind c))).
  split; reflexivity.
Qed.

(** X3: a candidate without a LeftParen chunk (a variable, a type, a
    namespace) is built the same whatever the extra space is set to: the
    whole record is independent of the static string. *)
Theorem X3_no_left_paren_no_extra_space (g g' : Statics) (k : CompletionKind)
    (r : CXCompletionResult) :
  Forall (fun c => Kind c <> CXCompletionChunk_LeftParen) (chunks_of r) ->
  CompletionData_ctor g k r = CompletionData_ctor g' k r.
Proof.
  destruct r as [ck [[chunks b]|]]; [|reflexivity].
  cbn [chunks_of CompletionString Chunks]. intros H.
  rewrite !ctor_eq. cbv zeta.
  destruct (scan_without_left_paren g g' chunks H) as [-> ->]. reflexivity.
Qed.

Lemma X3_no_left_paren_no_extra_space_witness :
  Forall (fun c => Kind c <> CXCompletionChunk_LeftParen)
    (chunks_of member_result)
  /\ CompletionData_ctor (EnableExtraSpace initial_statics) UNKNOWN
       member_result
     = CompletionData_ctor (DisableExtraSpace initial_statics) UNKNOWN
         member_result.
Proof.
  assert (H : Forall (fun c => Kind c <> CXCompletionChunk_LeftParen)
                (chunks_of member_result)).
  { repeat constructor; discriminate. }
  split; [exact H|].
  exact (X3_no_left_paren_no_extra_space (EnableExtraSpace initial_statics)
           (DisableExtraSpace initial_statics) UNKNOWN member_result H).
Defined.

(** ** What the scan and the inputs reach *)

(** X4: the scan only ever appends to the call string and to the main text,
    and it leaves the kind, the doc string, the key, the brief comment and
    the detailed info of the object as they are. *)
Theorem X4_scan_appends_only (g : Statics) (chunks : list Chunk)
    (st : scan_state) :
  let d := this st in
  let d' := this (scan g chunks st) in
  (exists s : string, call_string_ d' = call_string_ d ++ s)
  /\ (exists s : string,
        everything_except_return_type_ d'
        = everything_except_return_type_ d ++ s)
  /\ kind_ d' = kind_ d
  /\ doc_string_ d' = doc_string_ d
  /\ key_string_ d' = key_string_ d
  /\ brief_ d' = brief_ d
  /\ detailed_info_ d' = detailed_info_ d.
Proof.
  unfold scan. rewrite scan_eq. cbn.
  repeat split; eexists; reflexivity.
Qed.

(** X5: what each input of the constructor reaches.  The extra space never
    changes the kind, the return type, the brief comment or the doc string;
    the cursor kind changes the kind only; the brief comment changes the
    brief comment, the doc string and the detailed info only; and the brief
    comment and the doc string of a record are always the same text. *)
Theorem X5_what_each_input_reaches (g : Statics) (k : CompletionKind) :
  (forall (g' : Statics) (r : CXCompletionResult),
      let d := CompletionData_ctor g k r in
      let d' := CompletionData_ctor g' k r in
      kind_ d = kind_ d' /\ return_type_ d = return_type_ d'
      /\ brief_ d = brief_ d' /\ doc_string_ d = doc_string_ d')
  /\ (forall (ck ck' : CXCursorKind) (chunks : list Chunk) (b : string),
         set_kind (CursorKindToCompletionKind ck')
           (CompletionData_ctor g k (result_of ck chunks b))
         = CompletionData_ctor g k (result_of ck' chunks b))
  /\ (forall (ck : CXCursorKind) (chunks : list Chunk) (b b' : string),
         let d := CompletionData_ctor g k (result_of ck chunks b) in
         let d' := CompletionData_ctor g k (result_of ck chunks b') in
         kind_ d = kind_ d'
         /\ everything_except_return_type_ d
            = everything_except_return_type_ d'
         /\ call_string_ d = call_string_ d'
         /\ key_string_ d = key_string_ d'
         /\ return_type_ d = return_type_ d')
  /\ (forall r : CXCompletionResult,
         brief_ (CompletionData_ctor g k r)
         = doc_string_ (CompletionData_ctor g k r)).
Proof.
  split; [|split; [|split]].
  - intros g' [ck [[chunks b]|]] d d'; subst d d'; [|now cbn].
    rewrite !ctor_eq. now cbn.
  - intros ck ck' chunks b. unfold result_of. now rewrite !ctor_eq.
  - intros ck chunks b b' d d'. subst d d'. unfold result_of.
    rewrite !ctor_eq. now cbn.
  - intros [ck [[chunks b]|]]; [|reflexivity]. now rewrite ctor_eq.
Qed.

(** ** Sequences without Informative chunks *)

Lemma scan_call_is_scan_main (g : Statics) (chunks : list Chunk) (l p : bool) :
  Forall (fun c => Kind c <> CXCompletionChunk_Informative) chunks ->
  scan_call g l p chunks = scan_main g l p chunks.
Proof.
  intros H. revert l p.
  induction H as [|c rest Hc Hrest IH]; intros l p; [reflexivity|].
  cbn [scan_call scan_main]. rewrite IH. f_equal.
  unfold call_piece, main_piece, kind_is.
  destruct (chunk_kind_eq_dec (Kind c) CXCompletionChunk_Informative);
    [contradiction | reflexivity].
Qed.

(** X6: when no chunk of the sequence itself is Informative, the views of the
    record agree: the main text is the call string with the markers removed,
    and the key is the main text after the pass of cv_re. *)
Theorem X6_views_agree_without_informative (g : Statics) (k : CompletionKind)
    (r : CXCompletionResult) :
  Forall (fun c => Kind c <> CXCompletionChunk_Informative) (chunks_of r) ->
  let d := CompletionData_ctor g k r in
  everything_except_return_type_ d = RemoveParameterMarkers (call_string_ d)
  /\ key_string_ d = regex_replace (everything_except_return_type_ d) cv_re.
Proof.
  destruct r as [ck [[chunks b]|]]; [|intros _; split; reflexivity].
  intros H d. subst d. cbn [chunks_of CompletionString Chunks] in H.
  rewrite ctor_eq. cbv zeta.
  cbn [everything_except_return_type_ call_string_ key_string_].
  rewrite (scan_call_is_scan_main g chunks false false H).
  split; reflexivity.
Qed.

Lemma X6_views_agree_without_informative_witness :
  Forall (fun c => Kind c <> CXCompletionChunk_Informative)
    (chunks_of reserved_parameter_result)
  /\ everything_except_return_type_
       (CompletionData_ctor (EnableExtraSpace initial_statics) UNKNOWN
          reserved_parameter_result)
     = RemoveParameterMarkers
         (call_string_
            (CompletionData_ctor (EnableExtraSpace initial_statics) UNKNOWN
               reserved_parameter_result)).
Proof.
  assert (H : Forall (fun c => Kind c <> CXCompletionChunk_Informative)
                (chunks_of reserved_parameter_result)).
  { repeat constructor; discriminate. }
  split; [exact H|].
  exact (proj1 (X6_views_agree_without_informative
                  (EnableExtraSpace initial_statics) UNKNOWN
                  reserved_parameter_result H)).
Defined.

(** ** operator== as a relation *)

Lemma CompletionData_eq_true (a b : CompletionData) :
  CompletionData_eq a b = true <->
  kind_ a = kind_ b
  /\ everything_except_return_type_ a = everything_except_return_type_ b
  /\ return_type_ a = return_type_ b.
Proof.
  unfold CompletionData_eq.
  rewrite !andb_true_iff, CompletionKind_eqb_eq, !String.eqb_eq. tauto.
Qed.

(** X7: [operator==] is an equivalence: every record equals itself, the
    comparison gives the same answer in both directions, and records equal
    to a common one are equal. *)
Theorem X7_equality_is_an_equivalence (a b c : CompletionData) :
  CompletionData_eq a a = true
  /\ CompletionData_eq a b = CompletionData_eq b a
  /\ (CompletionData_eq a b = true -> CompletionData_eq b c = true ->
      CompletionData_eq a c = true).
Proof.
  split; [|split].
  - apply CompletionData_eq_true. repeat split.
  - apply eq_true_iff_eq. rewrite !CompletionData_eq_true.
    split; intros [H1 [H2 H3]]; repeat split; congruence.
  - rewrite !CompletionData_eq_true.
    intros [H1 [H2 H3]] [H4 [H5 H6]]. repeat split; congruence.
Qed.

Lemma X7_equality_is_an_equivalence_witness :
  CompletionData_eq
    (CompletionData_ctor initial_statics UNKNOWN member_result)
    (CompletionData_ctor initial_statics CLASS member_result) = true
  /\ CompletionData_eq
       (CompletionData_ctor initial_statics CLASS member_result)
       (CompletionData_ctor (EnableExtraSpace initial_statics) ENUM
          member_result) = true
  /\ CompletionData_eq
       (CompletionData_ctor initial_statics UNKNOWN member_result)
       (CompletionData_ctor (EnableExtraSpace initial_statics) ENUM
          member_result) = true.
Proof.
  assert (H1 : CompletionData_eq
                 (CompletionData_ctor initial_statics UNKNOWN member_result)
                 (CompletionData_ctor initial_statics CLASS member_result)
               = true) by reflexivity.
  assert (H2 : CompletionData_eq
                 (CompletionData_ctor initial_statics CLASS member_result)
                 (CompletionData_ctor (EnableExtraSpace initial_statics) ENUM
                    member_result) = true) by reflexivity.
  split; [exact H1|]. split; [exact H2|].
  exact (proj2 (proj2 (X7_equality_is_an_equivalence _ _ _)) H1 H2).
Defined.

(** ** Nesting of Optional chunks *)

(** X8: the rendering of an Optional chunk does not see how its content is
    nested: an Optional chunk among the nested chunks renders as its own
    nested chunks would in its place; a null nested completion string
    renders as an empty one; and the kind and the text of the chunk whose
    nested string is rendered are not read. *)
Theorem X8_optional_nesting_is_flattened (k k' : CXCompletionChunkKind)
    (t t' : string) :
  (forall (before inner after : list Chunk) (ti : string),
      OptionalChunkToString
        (mkChunk k t
           (Some (before
                  ++ mkChunk CXCompletionChunk_Optional ti (Some inner)
                  :: after)%list))
      = OptionalChunkToString
          (mkChunk k t (Some (before ++ inner ++ after)%list)))
  /\ (forall (before after : list Chunk) (ti : string),
         OptionalChunkToString
           (mkChunk k t
              (Some (before
                     ++ mkChunk CXCompletionChunk_Optional ti None
                     :: after)%list))
         = OptionalChunkToString (mkChunk k t (Some (before ++ after)%list)))
  /\ OptionalChunkToString (mkChunk k t None)
     = OptionalChunkToString (mkChunk k t (Some []))
  /\ (forall n : option (list Chunk),
         OptionalChunkToString (mkChunk k t n)
         = OptionalChunkToString (mkChunk k' t' n)).
Proof.
  split; [|split; [|split]].
  - intros before inner after ti. rewrite !OptionalChunkToString_eq.
    cbn [Nested]. rewrite join_map_insert, !map_app, !join_app.
    unfold nested_piece at 2. cbn [Kind].
    change (kind_is CXCompletionChunk_Optional CXCompletionChunk_Optional)
      with true. cbv iota.
    now rewrite OptionalChunkToString_eq.
  - intros before after ti. rewrite !OptionalChunkToString_eq.
    cbn [Nested]. rewrite join_map_insert, !map_app, !join_app.
    reflexivity.
  - reflexivity.
  - intros n. now rewrite !OptionalChunkToString_eq.
Qed.

(** ** Double underscores after the pass *)

Lemma erase_underscores_no_pair (s : string) :
  occurs "__" (RemoveTwoConsecutiveUnderscores s) = false.
Proof.
  induction s as [|c|c1 c2 s IH1 IH2] using string_ind2.
  - reflexivity.
  - destruct (ascii_dec c "_") as [->|Hc]; [reflexivity|].
    rewrite erase_underscores_other by exact Hc.
    cbn. now rewrite !andb_false_r.
  - destruct (ascii_dec c1 "_") as [->|Hc1].
    + destruct (ascii_dec c2 "_") as [->|Hc2].
      * now rewrite erase_underscores_pair.
      * rewrite erase_underscores_single by exact Hc2.
        cbn [occurs]. rewrite IH2, orb_false_r.
        rewrite erase_underscores_other by exact Hc2.
        cbn [starts_with].
        destruct (Ascii.eqb_spec "_" c2) as [E|_]; [congruence|].
        now rewrite andb_false_r.
    + rewrite erase_underscores_other by exact Hc1.
      cbn [occurs]. rewrite IH2, orb_false_r. cbn [starts_with].
      destruct (Ascii.eqb_spec "_" c1) as [E|_]; [congruence | reflexivity].
Qed.

Lemma erase_from_absent (search s : string) :
  occurs search s = false -> erase_from search 0 s = s.
Proof.
  induction s as [|c s IH]; [reflexivity|]. cbn [occurs erase_from].
  intros H. apply orb_false_iff in H as [H1 H2].
  rewrite H1. f_equal. now apply IH.
Qed.

Lemma erase_from_length (search : string) (skip : nat) (s : string) :
  String.length (erase_from search skip s) + Nat.min skip (String.length s)
  <= String.length s.
Proof.
  revert skip. induction s as [|c s IH]; intros skip.
  - cbn. lia.
  - cbn [erase_from String.length]. destruct skip as [|k].
    + destruct (starts_with search (String c s)).
      * specialize (IH (String.length search - 1)). cbn. lia.
      * specialize (IH 0). cbn in *. lia.
    + specialize (IH k). cbn. lia.
Qed.

Lemma erase_from_shrinks (search s : string) :
  search <> "" -> occurs search s = true ->
  String.length (erase_from search 0 s) < String.length s.
Proof.
  intros Hs. induction s as [|c s IH]; intros H.
  - destruct search; [congruence | discriminate H].
  - cbn [occurs] in H. cbn [erase_from String.length].
    destruct (starts_with search (String c s)).
    + pose proof (erase_from_length search (String.length search - 1) s). lia.
    + cbn [orb] in H. specialize (IH H). cbn. lia.
Qed.

Lemma erase_all_fixed (search s : string) :
  search <> "" ->
  (erase_all s search = s <-> occurs search s = false).
Proof.
  intros Hs. destruct search as [|x search]; [congruence|].
  unfold erase_all. split.
  - intros E. destruct (occurs (String x search) s) eqn:Ho; [|reflexivity].
    pose proof (erase_from_shrinks _ s Hs Ho) as Hl. rewrite E in Hl. lia.
  - apply erase_from_absent.
Qed.

Lemma erase_all_length (search s : string) :
  String.length (erase_all s search) <= String.length s.
Proof.
  unfold erase_all. destruct search; [lia|].
  pose proof (erase_from_length (String a search) 0 s). lia.
Qed.

(** X9: the call string of a record never holds two consecutive
    underscores, whatever the chunk texts, and a second pass of
    [RemoveTwoConsecutiveUnderscores] changes nothing. *)
Theorem X9_call_string_has_no_double_underscore (g : Statics)
    (k : CompletionKind) (r : CXCompletionResult) :
  occurs "__" (call_string_ (CompletionData_ctor g k r)) = false
  /\ forall s : string,
       RemoveTwoConsecutiveUnderscores (RemoveTwoConsecutiveUnderscores s)
       = RemoveTwoConsecutiveUnderscores s.
Proof.
  split.
  - destruct r as [ck [[chunks b]|]]; [|reflexivity].
    rewrite ctor_eq. apply erase_underscores_no_pair.
  - intros s. apply (erase_all_fixed "__"); [discriminate|].
    apply erase_underscores_no_pair.
Qed.

(** X10: the two erasing passes change a text exactly when there is
    something to erase: [RemoveTwoConsecutiveUnderscores] returns its
    argument if and only if no two consecutive underscores occur in it, and
    [RemoveParameterMarkers] returns its argument if and only if none of the
    four markers occurs in it. *)
Theorem X10_erasing_passes_fixed_points (s : string) :
  (RemoveTwoConsecutiveUnderscores s = s <-> occurs "__" s = false)
  /\ (RemoveParameterMarkers s = s <->
      occurs "⟪" s = false /\ occurs "⟫" s = false
      /\ occurs "⟦" s = false /\ occurs "⟧" s = false).
Proof.
  split; [apply erase_all_fixed; discriminate|].
  unfold RemoveParameterMarkers. cbv zeta. split.
  - intros E.
    pose proof (erase_all_length "⟪" s) as L1.
    pose proof (erase_all_length "⟫" (erase_all s "⟪")) as L2.
    pose proof (erase_all_length "⟦" (erase_all (erase_all s "⟪") "⟫")) as L3.
    pose proof (erase_all_length "⟧"
                  (erase_all (erase_all (erase_all s "⟪") "⟫") "⟦")) as L4.
    rewrite E in L4.
    assert (E1 : occurs "⟪" s = false).
    { destruct (occurs "⟪" s) eqn:Ho; [|reflexivity].
      pose proof (erase_from_shrinks "⟪" s ltac:(discriminate) Ho) as Hl.
      change (erase_from "⟪" 0 s) with (erase_all s "⟪") in Hl. lia. }
    rewrite (proj2 (erase_all_fixed "⟪" s ltac:(discriminate)) E1) in *.
    assert (E2 : occurs "⟫" s = false).
    { destruct (occurs "⟫" s) eqn:Ho; [|reflexivity].
      pose proof (erase_from_shrinks "⟫" s ltac:(discriminate) Ho) as Hl.
      change (erase_from "⟫" 0 s) with (erase_all s "⟫") in Hl. lia. }
    rewrite (proj2 (erase_all_fixed "⟫" s ltac:(discriminate)) E2) in *.
    assert (E3 : occurs "⟦" s = false).
    { destruct (occurs "⟦" s) eqn:Ho; [|reflexivity].
      pose proof (erase_from_shrinks "⟦" s ltac:(discriminate) Ho) as Hl.
      change (erase_from "⟦" 0 s) with (erase_all s "⟦") in Hl. lia. }
    rewrite (proj2 (erase_all_fixed "⟦" s ltac:(discriminate)) E3) in *.
    repeat split; auto.
    now apply (erase_all_fixed "⟧" s ltac:(discriminate)).
  - intros [E1 [E2 [E3 E4]]].
    rewrite (proj2 (erase_all_fixed "⟪" s ltac:(discriminate)) E1).
    rewrite (proj2 (erase_all_fixed "⟫" s ltac:(discriminate)) E2).
    rewrite (proj2 (erase_all_fixed "⟦" s ltac:(discriminate)) E3).
    now apply (erase_all_fixed "⟧" s ltac:(discriminate)).
Qed.

Lemma X10_erasing_passes_fixed_points_witness :
  (occurs "⟪" "foo(int x)" = false /\ occurs "⟫" "foo(int x)" = false
   /\ occurs "⟦" "foo(int x)" = false /\ occurs "⟧" "foo(int x)" = false)
  /\ RemoveParameterMarkers "foo(int x)" = "foo(int x)".
Proof.
  assert (H : occurs "⟪" "foo(int x)" = false
              /\ occurs "⟫" "foo(int x)" = false
              /\ occurs "⟦" "foo(int x)" = false
              /\ occurs "⟧" "foo(int x)" = false) by (repeat split).
  split; [exact H|].
  exact (proj2 (proj2 (X10_erasing_passes_fixed_points "foo(int x)")) H).
Defined.

(** ** When the pass of cv_re changes the text *)

Lemma has_cv_word_after_spaces (pw : bool) (s : string) :
  has_cv_word (if (count_spaces s =? 0)%nat then pw else false)
    (drop (count_spaces s) s) = true ->
  has_cv_word pw s = true.
Proof.
  revert pw. induction s as [|c s IH]; intros pw; [now cbn|].
  cbn [count_spaces]. destruct (is_space c) eqn:Hc; [|now cbn].
  cbn [Nat.eqb drop]. intros H.
  cbn [has_cv_word]. rewrite (space_not_word c Hc).
  rewrite (IH false); [apply orb_true_r|].
  now destruct (count_spaces s =? 0)%nat.
Qed.

Lemma has_cv_word_head (pw : bool) (s : string) :
  cv_word_at pw s = true -> has_cv_word pw s = true.
Proof. intros H. destruct s; cbn [has_cv_word]; now rewrite H. Qed.

(** Where the pattern matches, a whole word stands. *)
Lemma cv_re_match_has_word (pw : bool) (s : string) (n : nat) :
  cv_re_match pw s = Some n -> has_cv_word pw s = true.
Proof.
  unfold cv_re_match. intros H. apply has_cv_word_after_spaces.
  apply has_cv_word_head. unfold cv_word_at.
  destruct (negb _ && next_is_word _) eqn:G; [|discriminate H].
  apply andb_true_iff in G as [G _]. rewrite G.
  destruct (cv_keyword _) as [k|]; [|discriminate H].
  now destruct (negb (next_is_word _)).
Qed.

(** Where a whole word stands at the head, the pattern matches. *)
Lemma cv_word_at_matches (pw : bool) (s : string) :
  cv_word_at pw s = true -> exists n, cv_re_match pw s = Some n.
Proof.
  unfold cv_word_at. intros H. apply andb_true_iff in H as [Hp H].
  apply negb_true_iff in Hp. subst pw.
  destruct (cv_keyword s) as [k|] eqn:Ek; [|discriminate H].
  apply negb_true_iff in H.
  rewrite <- (take_drop k s).
  eexists. apply cv_re_match_word; [|exact H].
  apply cv_keyword_cases in Ek as [[-> Ek]|[-> Ek]].
  - left. exact (starts_with_take "const" _ Ek).
  - right. exact (starts_with_take "volatile" _ Ek).
Qed.

Lemma cv_replace_unchanged (pw : bool) (s : string) :
  has_cv_word pw s = false -> cv_replace_from 0 pw s = s.
Proof.
  revert pw. induction s as [|c s IH]; intros pw H; [reflexivity|].
  cbn [cv_replace_from].
  destruct (cv_re_match pw (String c s)) as [n|] eqn:Hm.
  - apply cv_re_match_has_word in Hm. congruence.
  - f_equal. apply IH. cbn [has_cv_word] in H.
    now apply orb_false_iff in H as [_ H].
Qed.

Lemma cv_replace_length (skip : nat) (pw : bool) (s : string) :
  String.length (cv_replace_from skip pw s) <= String.length s.
Proof.
  revert skip pw. induction s as [|c s IH]; intros skip pw; [cbn; lia|].
  cbn [cv_replace_from String.length]. destruct skip as [|k].
  - destruct (cv_re_match pw (String c s)) as [n|].
    + specialize (IH (n - 1) (is_word c)). lia.
    + specialize (IH 0 (is_word c)). cbn. lia.
  - specialize (IH k (is_word c)). lia.
Qed.

Lemma cv_replace_shrinks (pw : bool) (s : string) :
  has_cv_word pw s = true ->
  String.length (cv_replace_from 0 pw s) < String.length s.
Proof.
  revert pw. induction s as [|c s IH]; intros pw H.
  - cbn in H. unfold cv_word_at in H. cbn in H.
    now rewrite andb_false_r in H.
  - cbn [cv_replace_from String.length].
    destruct (cv_re_match pw (String c s)) as [n|] eqn:Hm.
    + pose proof (cv_replace_length (n - 1) (is_word c) s). lia.
    + cbn [has_cv_word] in H. apply orb_true_iff in H as [H|H].
      * apply cv_word_at_matches in H as [n Hn]. congruence.
      * specialize (IH _ H). cbn. lia.
Qed.

(** X11: the pass of cv_re returns its argument if and only if neither const
    nor volatile stands in it as a whole word; otherwise the result is
    strictly shorter. *)
Theorem X11_cv_pass_fixed_points (s : string) :
  (regex_replace s cv_re = s <-> has_cv_word false s = false)
  /\ (has_cv_word false s = true ->
      String.length (regex_replace s cv_re) < String.length s).
Proof.
  rewrite regex_replace_cv_re_eq. split; [split|].
  - intros E. destruct (has_cv_word false s) eqn:H; [|reflexivity].
    pose proof (cv_replace_shrinks false s H) as Hl. rewrite E in Hl. lia.
  - apply cv_replace_unchanged.
  - apply cv_replace_shrinks.
Qed.

Lemma X11_cv_pass_fixed_points_witness :
  has_cv_word false "get(const Key& key) const" = true
  /\ String.length (regex_replace "get(const Key& key) const" cv_re)
     < String.length "get(const Key& key) const".
Proof.
  split; [reflexivity|].
  exact (proj2 (X11_cv_pass_fixed_points "get(const Key& key) const") eq_refl).
Defined.

(** ** The key is cut out of the call string *)

Lemma subseq_refl (s : string) : subseq s s.
Proof. induction s; constructor; assumption. Qed.

Lemma subseq_trans (a b c : string) : subseq a b -> subseq b c -> subseq a c.
Proof.
  intros Hab Hbc. revert a Hab.
  induction Hbc as [|x b c Hbc IH|x b c Hbc IH]; intros a Hab.
  - exact Hab.
  - inversion Hab as [|? a' ? Ha|? ? ? Ha]; subst.
    + apply subseq_keep. now apply IH.
    + apply subseq_drop. now apply IH.
  - apply subseq_drop. now apply IH.
Qed.

Lemma subseq_length (a b : string) :
  subseq a b -> String.length a <= String.length b.
Proof. induction 1; cbn; lia. Qed.

Lemma erase_all_subseq (search s : string) : subseq (erase_all s search) s.
Proof.
  unfold erase_all. destruct search as [|x search]; [apply subseq_refl|].
  generalize 0 as skip. induction s as [|c s IH]; intros skip; [constructor|].
  cbn [erase_from]. destruct skip as [|k].
  - destruct (starts_with _ _); [apply subseq_drop | apply subseq_keep];
      apply IH.
  - apply subseq_drop, IH.
Qed.

Lemma regex_replace_subseq (e : regex) (s : string) :
  subseq (regex_replace s e) s.
Proof.
  unfold regex_replace. generalize 0 as skip, false as pw.
  induction s as [|c s IH]; intros skip pw; [constructor|].
  cbn [regex_replace_from]. destruct skip as [|k].
  - destruct (regex_match_here e pw (String c s)) as [[|m]|];
      [apply subseq_keep | apply subseq_drop | apply subseq_keep]; apply IH.
  - apply subseq_drop, IH.
Qed.

(** X12: the key of a record is cut out of its call string: it is the call
    string with some bytes deleted and the others in their order, so it is
    never longer; and each of the two erasing passes returns its argument
    with some bytes deleted and the others in their order. *)
Theorem X12_key_is_cut_out_of_call_string (g : Statics) (k : CompletionKind)
    (r : CXCompletionResult) :
  let d := CompletionData_ctor g k r in
  subseq (key_string_ d) (call_string_ d)
  /\ String.length (key_string_ d) <= String.length (call_string_ d)
  /\ forall s : string,
       subseq (RemoveParameterMarkers s) s
       /\ subseq (RemoveTwoConsecutiveUnderscores s) s.
Proof.
  intros d.
  assert (P : forall s, subseq (RemoveParameterMarkers s) s).
  { intros s. unfold RemoveParameterMarkers. cbv zeta.
    eapply subseq_trans; [apply erase_all_subseq|].
    eapply subseq_trans; [apply erase_all_subseq|].
    eapply subseq_trans; [apply erase_all_subseq|].
    apply erase_all_subseq. }
  assert (K : subseq (key_string_ d) (call_string_ d)).
  { subst d. destruct r as [ck [[chunks b]|]]; [|constructor].
    rewrite ctor_eq. cbv zeta. cbn [key_string_ call_string_].
    eapply subseq_trans; [apply regex_replace_subseq | apply P]. }
  split; [exact K|]. split; [now apply subseq_length|].
  intros s. split; [apply P | apply erase_all_subseq].
Qed.

(** ** Well-formed UTF-8 in, well-formed UTF-8 out *)

Lemma in_range_exclusive (lo hi lo' hi' : nat) (c : ascii) :
  in_range lo hi c = true -> hi < lo' \/ hi' < lo ->
  in_range lo' hi' c = false.
Proof.
  unfold in_range. cbv zeta. intros H Hd.
  apply andb_true_iff in H as [Ha Hb]. apply Nat.leb_le in Ha, Hb.
  apply andb_false_iff.
  destruct Hd; [left | right]; apply Nat.leb_gt; lia.
Qed.

Lemma utf8_well_formed_Utf8 (s : string) : utf8_well_formed s = true -> Utf8 s.
Proof.
  assert (H : forall n s, String.length s <= n ->
                          utf8_well_formed s = true -> Utf8 s).
  { clear s. induction n as [|n IH]; intros s Hn Hs.
    - destruct s; [exists []; now split | cbn in Hn; lia].
    - destruct s as [|c0 r0]; [exists []; now split|].
      cbn [utf8_well_formed] in Hs. cbn [String.length] in Hn.
      destruct (in_range 0 127 c0) eqn:R0.
      { destruct (IH r0) as [qs [Hq E]]; [lia | exact Hs|].
        exists (String c0 "" :: qs). split.
        - cbn [forallb valid_seq]. now rewrite R0, Hq.
        - cbn. now rewrite <- E. }
      destruct r0 as [|c1 r1]; [discriminate Hs|].
      cbn [String.length] in Hn.
      destruct (in_range 194 223 c0) eqn:R1.
      { apply andb_true_iff in Hs as [Hc1 Hs].
        destruct (IH r1) as [qs [Hq E]]; [lia | exact Hs|].
        exists (String c0 (String c1 "") :: qs). split.
        - cbn [forallb valid_seq]. now rewrite R1, Hc1, Hq.
        - cbn. now rewrite <- E. }
      destruct r1 as [|c2 r2]; [discriminate Hs|].
      cbn [String.length] in Hn.
      destruct (in_range 224 239 c0) eqn:R2.
      { apply andb_true_iff in Hs as [Hs Hr].
        destruct (IH r2) as [qs [Hq E]]; [lia | exact Hr|].
        exists (String c0 (String c1 (String c2 "")) :: qs). split.
        - cbn [forallb valid_seq]. rewrite R2. cbn [andb].
          now rewrite Hs, Hq.
        - cbn. now rewrite <- E. }
      destruct r2 as [|c3 r3]; [discriminate Hs|].
      cbn [String.length] in Hn.
      apply andb_true_iff in Hs as [Hs Hr].
      destruct (IH r3) as [qs [Hq E]]; [lia | exact Hr|].
      exists (String c0 (String c1 (String c2 (String c3 ""))) :: qs). split.
      + cbn [forallb valid_seq]. now rewrite Hs, Hq.
      + cbn. now rewrite <- E. }
  apply (H (String.length s)). lia.
Qed.

Lemma valid_seq_cases (q : string) :
  valid_seq q = true ->
  (exists c0, q = String c0 "" /\ in_range 0 127 c0 = true)
  \/ (exists c0 c1, q = String c0 (String c1 "")
        /\ in_range 194 223 c0 = true /\ in_range 128 191 c1 = true)
  \/ (exists c0 c1 c2, q = String c0 (String c1 (String c2 ""))
        /\ in_range 224 239 c0 = true /\ in_range 128 191 c1 = true
        /\ in_range 128 191 c2 = true)
  \/ (exists c0 c1 c2 c3,
        q = String c0 (String c1 (String c2 (String c3 "")))
        /\ in_range 240 244 c0 = true /\ in_range 128 191 c1 = true
        /\ in_range 128 191 c2 = true /\ in_range 128 191 c3 = true).
Proof.
  destruct q as [|c0 [|c1 [|c2 [|c3 [|c4 q]]]]]; try discriminate; cbn [valid_seq].
  - intros H. left. eauto.
  - intros H. apply andb_true_iff in H as [H0 H1]. right. left. eauto.
  - intros H. apply andb_true_iff in H as [H H2].
    apply andb_true_iff in H as [H0 H1]. right. right. left.
    exists c0, c1, c2. repeat split; auto.
    destruct (in_range 224 224 c0);
      [apply (in_range_weaken 160 191); auto; lia|].
    destruct (in_range 237 237 c0);
      [apply (in_range_weaken 128 159); auto; lia | exact H1].
  - intros H. apply andb_true_iff in H as [H H3].
    apply andb_true_iff in H as [H H2].
    apply andb_true_iff in H as [H0 H1]. right. right. right.
    exists c0, c1, c2, c3. repeat split; auto.
    destruct (in_range 240 240 c0);
      [apply (in_range_weaken 144 191); auto; lia|].
    destruct (in_range 244 244 c0);
      [apply (in_range_weaken 128 143); auto; lia | exact H1].
Qed.

Lemma Utf8_utf8_well_formed (s : string) : Utf8 s -> utf8_well_formed s = true.
Proof.
  intros [qs [Hq <-]]. induction qs as [|q qs IH]; [reflexivity|].
  cbn [forallb] in Hq. apply andb_true_iff in Hq as [Hv Hq].
  specialize (IH Hq). cbn [join fold_right]. fold (join qs).
  destruct q as [|c0 [|c1 [|c2 [|c3 [|c4 q]]]]]; try discriminate Hv;
    cbn [valid_seq] in Hv; cbn [append utf8_well_formed].
  - now rewrite Hv.
  - apply andb_true_iff in Hv as [H0 H1].
    rewrite (in_range_exclusive 194 223 0 127 c0 H0) by lia.
    now rewrite H0, H1.
  - apply andb_true_iff in Hv as [Hv H2].
    apply andb_true_iff in Hv as [H0 H1].
    rewrite (in_range_exclusive 224 239 0 127 c0 H0) by lia.
    rewrite (in_range_exclusive 224 239 194 223 c0 H0) by lia.
    now rewrite H0, H1, H2.
  - apply andb_true_iff in Hv as [Hv H3].
    apply andb_true_iff in Hv as [Hv H2].
    apply andb_true_iff in Hv as [H0 H1].
    rewrite (in_range_exclusive 240 244 0 127 c0 H0) by lia.
    rewrite (in_range_exclusive 240 244 194 223 c0 H0) by lia.
    rewrite (in_range_exclusive 240 244 224 239 c0 H0) by lia.
    now rewrite H0, H1, H2, H3.
Qed.

Lemma Utf8_empty : Utf8 "".
Proof. exists []. now split. Qed.

Lemma Utf8_app (a b : string) : Utf8 a -> Utf8 b -> Utf8 (a ++ b).
Proof.
  intros [qa [Ha <-]] [qb [Hb <-]]. exists (qa ++ qb)%list. split.
  - rewrite forallb_app. now rewrite Ha, Hb.
  - apply join_app.
Qed.

Lemma Utf8_cons (q s : string) : valid_seq q = true -> Utf8 s -> Utf8 (q ++ s).
Proof.
  intros Hq [qs [Hs <-]]. exists (q :: qs). split; [|reflexivity].
  cbn [forallb]. now rewrite Hq, Hs.
Qed.

Lemma not_plain_above (lo hi : nat) (c : ascii) :
  in_range lo hi c = true -> 128 <= lo -> is_plain c = false.
Proof.
  unfold in_range, is_plain. cbv zeta. intros H Hl.
  apply andb_true_iff in H as [Ha _]. apply Nat.leb_le in Ha.
  apply Nat.ltb_ge. lia.
Qed.

(** Deleting plain bytes never cuts a sequence. *)
Lemma deletes_plain_Utf8 (s s' : string) :
  Utf8 s -> deletes_plain s s' -> Utf8 s'.
Proof.
  intros [qs [Hq <-]]. revert s'.
  induction qs as [|q qs IH]; intros s' D.
  - inversion D; subst. apply Utf8_empty.
  - cbn [forallb] in Hq. apply andb_true_iff in Hq as [Hv Hq].
    specialize (IH Hq). cbn [join fold_right] in D. fold (join qs) in D.
    pose proof Hv as Hv0.
    apply valid_seq_cases in Hv
      as [[c0 [-> H0]]
         |[[c0 [c1 [-> [H0 H1]]]]
          |[[c0 [c1 [c2 [-> [H0 [H1 H2]]]]]]
           |[c0 [c1 [c2 [c3 [-> [H0 [H1 [H2 H3]]]]]]]]]]];
      cbn [append] in D.
    + inversion D as [|? ? s1 D1|? ? ? P D1]; subst.
      * apply (Utf8_cons (String c0 "")); [exact Hv0 | now apply IH].
      * now apply IH.
    + pose proof (not_plain_above _ _ _ H0 ltac:(lia)) as P0.
      pose proof (not_plain_above _ _ _ H1 ltac:(lia)) as P1.
      inversion D as [|? ? s1 D1|? ? ? P D1]; subst; [|congruence].
      inversion D1 as [|? ? s2 D2|? ? ? P D2]; subst; [|congruence].
      apply (Utf8_cons (String c0 (String c1 ""))); [exact Hv0 | now apply IH].
    + pose proof (not_plain_above _ _ _ H0 ltac:(lia)) as P0.
      pose proof (not_plain_above _ _ _ H1 ltac:(lia)) as P1.
      pose proof (not_plain_above _ _ _ H2 ltac:(lia)) as P2.
      inversion D as [|? ? s1 D1|? ? ? P D1]; subst; [|congruence].
      inversion D1 as [|? ? s2 D2|? ? ? P D2]; subst; [|congruence].
      inversion D2 as [|? ? s3 D3|? ? ? P D3]; subst; [|congruence].
      apply (Utf8_cons (String c0 (String c1 (String c2 ""))));
        [exact Hv0 | now apply IH].
    + pose proof (not_plain_above _ _ _ H0 ltac:(lia)) as P0.
      pose proof (not_plain_above _ _ _ H1 ltac:(lia)) as P1.
      pose proof (not_plain_above _ _ _ H2 ltac:(lia)) as P2.
      pose proof (not_plain_above _ _ _ H3 ltac:(lia)) as P3.
      inversion D as [|? ? s1 D1|? ? ? P D1]; subst; [|congruence].
      inversion D1 as [|? ? s2 D2|? ? ? P D2]; subst; [|congruence].
      inversion D2 as [|? ? s3 D3|? ? ? P D3]; subst; [|congruence].
      inversion D3 as [|? ? s4 D4|? ? ? P D4]; subst; [|congruence].
      apply (Utf8_cons (String c0 (String c1 (String c2 (String c3 "")))));
        [exact Hv0 | now apply IH].
Qed.

Lemma in_range_not_lead_sym (lo hi : nat) (c : ascii) :
  in_range lo hi c = true -> 226 < lo \/ hi < 226 ->
  Ascii.eqb lead_byte c = false.
Proof.
  intros H Hb. apply not_lead_sym. now apply (in_range_not_lead lo hi).
Qed.

(** Erasing a three-byte sequence that starts with 226 erases whole
    sequences only. *)
Lemma erase_marker_Utf8 (x y : ascii) (s : string) :
  Utf8 s ->
  Utf8 (erase_from (String lead_byte (String x (String y ""))) 0 s).
Proof.
  set (m := String lead_byte (String x (String y ""))).
  intros [qs [Hq <-]].
  induction qs as [|q qs IH]; [apply Utf8_empty|].
  cbn [forallb] in Hq. apply andb_true_iff in Hq as [Hv Hq].
  specialize (IH Hq). cbn [join fold_right]. fold (join qs).
  pose proof Hv as Hv0.
  apply valid_seq_cases in Hv
    as [[c0 [-> H0]]
       |[[c0 [c1 [-> [H0 H1]]]]
        |[[c0 [c1 [c2 [-> [H0 [H1 H2]]]]]]
         |[c0 [c1 [c2 [c3 [-> [H0 [H1 [H2 H3]]]]]]]]]]];
    cbn [append].
  - unfold m. cbn [erase_from starts_with].
    rewrite (in_range_not_lead_sym _ _ _ H0) by lia. cbn [andb]. fold m.
    now apply (Utf8_cons (String c0 "")).
  - unfold m. cbn [erase_from starts_with].
    rewrite (in_range_not_lead_sym _ _ _ H0) by lia. cbn [andb].
    rewrite (in_range_not_lead_sym _ _ _ H1) by lia. cbn [andb]. fold m.
    now apply (Utf8_cons (String c0 (String c1 ""))).
  - unfold m. cbn [erase_from].
    destruct (starts_with _ _) eqn:E.
    + cbn [String.length Nat.sub erase_from]. fold m. exact IH.
    + cbn [starts_with].
      rewrite (in_range_not_lead_sym _ _ _ H1) by lia. cbn [andb].
      rewrite (in_range_not_lead_sym _ _ _ H2) by lia. cbn [andb]. fold m.
      now apply (Utf8_cons (String c0 (String c1 (String c2 "")))).
  - unfold m. cbn [erase_from starts_with].
    rewrite (in_range_not_lead_sym _ _ _ H0) by lia. cbn [andb].
    rewrite (in_range_not_lead_sym _ _ _ H1) by lia. cbn [andb].
    rewrite (in_range_not_lead_sym _ _ _ H2) by lia. cbn [andb].
    rewrite (in_range_not_lead_sym _ _ _ H3) by lia. cbn [andb]. fold m.
    now apply (Utf8_cons (String c0 (String c1 (String c2 (String c3 ""))))).
Qed.

Lemma RemoveParameterMarkers_Utf8 (s : string) :
  Utf8 s -> Utf8 (RemoveParameterMarkers s).
Proof.
  intros H. unfold RemoveParameterMarkers. cbv zeta.
  apply (erase_marker_Utf8 "159" "167").
  apply (erase_marker_Utf8 "159" "166").
  apply (erase_marker_Utf8 "159" "171").
  now apply (erase_marker_Utf8 "159" "170").
Qed.

Section Rendered.

(** A property of texts that the empty text and the four markers have and
    that concatenation keeps, and a test of chunk texts that establishes
    it. *)
Variable P : string -> Prop.
Variable ok : string -> bool.
Hypothesis ok_P : forall s, ok s = true -> P s.
Hypothesis P_empty : P "".
Hypothesis P_app : forall a b, P a -> P b -> P (a ++ b).
Hypothesis P_markers :
  P top_open /\ P top_close /\ P nested_open /\ P nested_close.

Variable g : Statics.
Hypothesis P_extra_space : P (extra_space_ g).

Lemma ChunkToString_in (c : Chunk) (o cl : string) :
  chunk_texts ok c = true -> P o -> P cl -> P (ChunkToString c o cl).
Proof.
  intros Hc Ho Hcl. destruct c as [kc tc nc].
  cbn [chunk_texts Text] in Hc. split_andb Hc. apply ok_P in Hc.
  unfold ChunkToString. cbn [Kind Text].
  destruct (kind_is kc CXCompletionChunk_Placeholder); auto.
Qed.

Lemma join_in (l : list string) : Forall P l -> P (join l).
Proof. induction 1; cbn; auto. Qed.

Lemma OptionalChunkToString_in (c : Chunk) :
  chunk_texts ok c = true -> P (OptionalChunkToString c).
Proof.
  induction c as [k t n IH] using Chunk_nested_ind. intros Hc.
  rewrite OptionalChunkToString_eq. cbn [Nested].
  destruct n as [l|]; [|exact P_empty].
  cbn [chunk_texts Text Nested] in Hc. split_andb Hc.
  apply join_in. apply Forall_map.
  rewrite forallb_forall in Hc0. rewrite Forall_forall in IH |- *.
  intros x Hx. specialize (Hc0 x Hx). specialize (IH x Hx Hc0).
  unfold nested_piece.
  destruct (kind_is (Kind x) CXCompletionChunk_Optional); [exact IH|].
  apply ChunkToString_in; tauto.
Qed.

Lemma pieces_in (l p : bool) (c : Chunk) :
  chunk_texts ok c = true -> P (main_piece g l p c) /\ P (call_piece g l p c).
Proof.
  intros Hc. unfold main_piece, call_piece, space_piece.
  destruct (IsMainCompletionTextInfo (Kind c)); [|now split].
  assert (Hs : P (if emits_space l p (Kind c) then extra_space_ g else ""))
    by now destruct (emits_space l p (Kind c)).
  destruct (kind_is (Kind c) CXCompletionChunk_Optional).
  - split; apply P_app; auto; now apply OptionalChunkToString_in.
  - assert (Hr : P (ChunkToString c top_open top_close))
      by (apply ChunkToString_in; tauto).
    destruct (kind_is (Kind c) CXCompletionChunk_Informative);
      split; apply P_app; auto.
Qed.

Lemma scan_in (chunks : list Chunk) (l p : bool) (r : string) :
  forallb (chunk_texts ok) chunks = true -> P r ->
  P (scan_main g l p chunks) /\ P (scan_call g l p chunks)
  /\ P (scan_return r chunks).
Proof.
  revert l p r.
  induction chunks as [|c rest IH]; intros l p r H Hr; cbn; [now repeat split|].
  cbn in H. split_andb H.
  destruct (pieces_in l p c H) as [Hm Hc].
  assert (Hr' : P (if kind_is (Kind c) CXCompletionChunk_ResultType
                   then Text c else r)).
  { destruct (kind_is _ _); [|exact Hr].
    destruct c as [kc tc nc]. cbn [chunk_texts Text] in H. split_andb H.
    now apply ok_P. }
  destruct (IH (next_left_paren l (Kind c))
              (next_function_params l p (Kind c)) _ H0 Hr')
    as [I1 [I2 I3]].
  repeat split; auto.
Qed.

End Rendered.

(** X13: when every chunk text is well-formed UTF-8, and the extra space is
    (it is after either setter), the call string, the main text, the key and
    the return type of the record are well-formed UTF-8: no pass of the
    constructor cuts a multi-byte sequence. *)
Theorem X13_utf8_in_utf8_out (g : Statics) (k : CompletionKind)
    (r : CXCompletionResult) :
  utf8_well_formed (extra_space_ g) = true ->
  forallb (chunk_texts utf8_well_formed) (chunks_of r) = true ->
  let d := CompletionData_ctor g k r in
  utf8_well_formed (call_string_ d) = true
  /\ utf8_well_formed (everything_except_return_type_ d) = true
  /\ utf8_well_formed (key_string_ d) = true
  /\ utf8_well_formed (return_type_ d) = true.
Proof.
  intros Hg Hr d. subst d.
  destruct r as [ck [[chunks b]|]]; [|now repeat split].
  cbn [chunks_of CompletionString Chunks] in Hr.
  rewrite ctor_eq. cbv zeta.
  cbn [call_string_ everything_except_return_type_ key_string_ return_type_].
  destruct (scan_in Utf8 utf8_well_formed utf8_well_formed_Utf8 Utf8_empty
              Utf8_app) with (g := g) (chunks := chunks) (l := false)
              (p := false) (r := "")
    as [Hm [Hc Hret]];
    try (exact Hr); try (apply Utf8_empty);
    try (now apply utf8_well_formed_Utf8).
  { repeat split; now apply utf8_well_formed_Utf8. }
  assert (Hcall : Utf8 (RemoveTwoConsecutiveUnderscores
                          (scan_call g false false chunks))).
  { eapply deletes_plain_Utf8;
      [exact Hc | apply erase_underscores_deletes_plain]. }
  repeat split; apply Utf8_utf8_well_formed.
  - exact Hcall.
  - apply RemoveParameterMarkers_Utf8.
    eapply deletes_plain_Utf8;
      [exact Hm | apply erase_underscores_deletes_plain].
  - rewrite regex_replace_cv_re_eq.
    eapply deletes_plain_Utf8;
      [apply RemoveParameterMarkers_Utf8, Hcall|].
    now apply cv_replace_deletes_plain.
  - exact Hret.
Qed.

Lemma X13_utf8_in_utf8_out_witness :
  utf8_well_formed (extra_space_ (EnableExtraSpace initial_statics)) = true
  /\ forallb (chunk_texts utf8_well_formed)
       (chunks_of (result_of CXCursor_CXXMethod utf8_chunks "")) = true
  /\ utf8_well_formed
       (key_string_
          (CompletionData_ctor (EnableExtraSpace initial_statics) UNKNOWN
             (result_of CXCursor_CXXMethod utf8_chunks ""))) = true.
Proof.
  split; [reflexivity|]. split; [reflexivity|].
  exact (proj1 (proj2 (proj2
    (X13_utf8_in_utf8_out (EnableExtraSpace initial_statics) UNKNOWN
       (result_of CXCursor_CXXMethod utf8_chunks "") eq_refl eq_refl)))).
Defined.

(** ** The extra space shows only where parameters were seen *)

Lemma emits_space_is_first_parameter (l : bool) (kind : CXCompletionChunkKind) :
  emits_space l false kind = next_function_params l false kind.
Proof. destruct kind, l; reflexivity. Qed.

Lemma first_parameter_after_left_paren (l : bool)
    (kind : CXCompletionChunkKind) :
  next_function_params l false kind = true ->
  next_left_paren l kind = true.
Proof. destruct kind, l; cbn; congruence. Qed.

Lemma scan_without_parameters (g g' : Statics) (chunks : list Chunk) (l : bool) :
  snd (paren_after l false chunks) = false ->
  scan_main g l false chunks = scan_main g' l false chunks
  /\ scan_call g l false chunks = scan_call g' l false chunks.
Proof.
  revert l. induction chunks as [|c rest IH]; intros l H; [now split|].
  cbn [paren_after] in H. cbn [scan_main scan_call].
  destruct (next_function_params l false (Kind c)) eqn:E.
  - exfalso.
    pose proof (first_parameter_after_left_paren l (Kind c) E) as Hl.
    destruct (paren_after_monotone rest (next_left_paren l (Kind c)) true)
      as [_ [_ M]]; [intros _; exact Hl|].
    rewrite (M eq_refl) in H. discriminate H.
  - destruct (IH _ H) as [-> ->].
    unfold main_piece, call_piece, space_piece.
    rewrite emits_space_is_first_parameter, E. split; reflexivity.
Qed.

(** X14: when the scan of a candidate ends with saw_function_params still
    false (no parameter followed a left paren), the record does not depend
    on the extra space at all. *)
Theorem X14_no_parameters_no_extra_space (g g' : Statics) (k : CompletionKind)
    (r : CXCompletionResult) :
  saw_function_params
    (scan g (chunks_of r)
       {| this := default_initialized k;
          saw_left_paren := false;
          saw_function_params := false |}) = false ->
  CompletionData_ctor g k r = CompletionData_ctor g' k r.
Proof.
  destruct r as [ck [[chunks b]|]]; [|reflexivity].
  cbn [chunks_of CompletionString Chunks]. unfold scan. rewrite scan_eq.
  cbn [saw_function_params saw_left_paren]. intros H.
  rewrite !ctor_eq. cbv zeta.
  destruct (scan_without_parameters g g' chunks false H) as [-> ->].
  reflexivity.
Qed.

Lemma X14_no_parameters_no_extra_space_witness :
  saw_function_params
    (scan (EnableExtraSpace initial_statics)
       (chunks_of
          (result_of CXCursor_CXXMethod
             [leaf CXCompletionChunk_TypedText "size";
              leaf CXCompletionChunk_LeftParen "(";
              leaf CXCompletionChunk_RightParen ")";
              leaf CXCompletionChunk_Informative " const"] ""))
       {| this := default_initialized UNKNOWN;
          saw_left_paren := false;
          saw_function_params := false |}) = false
  /\ CompletionData_ctor (EnableExtraSpace initial_statics) UNKNOWN
       (result_of CXCursor_CXXMethod
          [leaf CXCompletionChunk_TypedText "size";
           leaf CXCompletionChunk_LeftParen "(";
           leaf CXCompletionChunk_RightParen ")";
           leaf CXCompletionChunk_Informative " const"] "")
     = CompletionData_ctor initial_statics UNKNOWN
         (result_of CXCursor_CXXMethod
            [leaf CXCompletionChunk_TypedText "size";
             leaf CXCompletionChunk_LeftParen "(";
             leaf CXCompletionChunk_RightParen ")";
             leaf CXCompletionChunk_Informative " const"] "").
Proof.
  split; [reflexivity|].
  exact (X14_no_parameters_no_extra_space (EnableExtraSpace initial_statics)
           initial_statics UNKNOWN
           (result_of CXCursor_CXXMethod
              [leaf CXCompletionChunk_TypedText "size";
               leaf CXCompletionChunk_LeftParen "(";
               leaf CXCompletionChunk_RightParen ")";
               leaf CXCompletionChunk_Informative " const"] "")
           eq_refl).
Defined.

(** ** The call string without the Informative chunks *)

Lemma scan_call_drops_informative (g : Statics) (chunks : list Chunk)
    (l p : bool) :
  scan_call g l p
    (filter (fun c => negb (kind_is (Kind c) CXCompletionChunk_Informative))
       chunks)
  = scan_call g l p chunks.
Proof.
  revert l p. induction chunks as [|c rest IH]; intros l p; [reflexivity|].
  cbn [filter scan_call].
  destruct (kind_is (Kind c) CXCompletionChunk_Informative) eqn:E;
    cbn [negb].
  - unfold kind_is in E.
    destruct (chunk_kind_eq_dec (Kind c) CXCompletionChunk_Informative)
      as [Hk|]; [|discriminate E].
    destruct (paren_state_kept l p (Kind c) (or_intror Hk)) as [-> ->].
    rewrite IH.
    assert (Hc : call_piece g l p c = "").
    { unfold call_piece, space_piece, emits_space. rewrite Hk. cbn.
      now rewrite !andb_false_r. }
    now rewrite Hc.
  - cbn [scan_call]. now rewrite IH.
Qed.

(** X15: the call string and the key of a record are those of the sequence
    with every Informative chunk of the sequence itself left out. *)
Theorem X15_call_string_ignores_informative (g : Statics) (k : CompletionKind)
    (ck : CXCursorKind) (chunks : list Chunk) (b : string) :
  let plain :=
    filter (fun c => negb (kind_is (Kind c) CXCompletionChunk_Informative))
      chunks in
  call_string_ (CompletionData_ctor g k (result_of ck chunks b))
  = call_string_ (CompletionData_ctor g k (result_of ck plain b))
  /\ key_string_ (CompletionData_ctor g k (result_of ck chunks b))
     = key_string_ (CompletionData_ctor g k (result_of ck plain b)).
Proof.
  intros plain. subst plain. unfold result_of. rewrite !ctor_eq. cbv zeta.
  cbn [call_string_ key_string_].
  rewrite scan_call_drops_informative. split; reflexivity.
Qed.
